(** * Music Release Tracker UI: the release presenter and the artist search
      section of [src/App.tsx], embedded and verified.

    The file has three parts.
    - [JsObject], [JsArray]: the pieces of the JavaScript run time the
      component code relies on (own-property order of an object literal,
      properties inherited from [Object.prototype], [Array.prototype.sort]).
    - [Releases]: [groupReleasesByType] and the [typeOrder]/[sortedTypes]
      code of [ReleasesView]; [Gate]: [MainContent].
    - [ArtistSearch]: [ArtistSearchSection] ([handleSearch],
      [handleAddArtist] and the debounce effect) as a machine over timed
      events. *)

From Stdlib Require Import String Ascii List ZArith NArith Bool Lia.
From Stdlib Require Import Sorting.Sorted Sorting.Permutation.
Import ListNotations.
Open Scope string_scope.
Open Scope list_scope.

(** ** JavaScript objects used as maps *)

Module JsObject.

(** The properties every object literal inherits from [Object.prototype]
    (ECMA-262, 20.1.3 and Annex B.2.2).  Reading one of them from [{}] gives
    a function (or, for [__proto__], the prototype object): a truthy value
    that has no [push] method. *)
Definition prototypeKeys : list string :=
  [ "constructor"; "hasOwnProperty"; "isPrototypeOf"; "propertyIsEnumerable";
    "toLocaleString"; "toString"; "valueOf"; "__proto__";
    "__defineGetter__"; "__defineSetter__"; "__lookupGetter__";
    "__lookupSetter__" ].

Definition inherited (k : string) : bool :=
  existsb (String.eqb k) prototypeKeys.

Definition digit (c : ascii) : option N :=
  let n := N_of_ascii c in
  if ((48 <=? n) && (n <=? 57))%N then Some (n - 48)%N else None.

Fixpoint digits (s : string) (acc : N) : option N :=
  match s with
  | EmptyString => Some acc
  | String c s' =>
      match digit c with
      | Some d => digits s' (10 * acc + d)%N
      | None => None
      end
  end.

(** An array index is a canonical numeric string (no sign, no leading zero)
    whose value is below 2^32 - 1 (ECMA-262, 6.1.7). *)
Definition arrayIndex (k : string) : option N :=
  match k with
  | EmptyString => None
  | String "0"%char EmptyString => Some 0%N
  | String "0"%char _ => None
  | _ =>
      match digits k 0 with
      | Some n => if (n <? 4294967295)%N then Some n else None
      | None => None
      end
  end.

Definition isArrayIndex (k : string) : bool :=
  match arrayIndex k with Some _ => true | None => false end.

Definition indexValue (k : string) : N :=
  match arrayIndex k with Some n => n | None => 0%N end.

Section Props.
Context {V : Type}.

(** Own properties, in creation order. *)
Definition t := list (string * V).

Definition empty : t := [].

Inductive lookup :=
| Own (v : V)      (* an own property *)
| Inherited        (* a member of Object.prototype *)
| Undefined.

Fixpoint getOwn (o : t) (k : string) : option V :=
  match o with
  | [] => None
  | (k', v) :: o' => if String.eqb k' k then Some v else getOwn o' k
  end.

(** [o[k]] *)
Definition get (o : t) (k : string) : lookup :=
  match getOwn o k with
  | Some v => Own v
  | None => if inherited k then Inherited else Undefined
  end.

(** [o[k] = v]: overwrites an own property in place, or creates it after
    the existing ones.  (The component code assigns only where [o[k]] is
    falsy, so never to an inherited name.) *)
Fixpoint set (o : t) (k : string) (v : V) : t :=
  match o with
  | [] => [(k, v)]
  | (k', v') :: o' =>
      if String.eqb k' k then (k', v) :: o' else (k', v') :: set o' k v
  end.

Fixpoint insertIndex (k : string) (ks : list string) : list string :=
  match ks with
  | [] => [k]
  | k' :: ks' =>
      if (indexValue k <=? indexValue k')%N then k :: ks
      else k' :: insertIndex k ks'
  end.

Definition ascendingIndices (ks : list string) : list string :=
  fold_right insertIndex [] ks.

Definition ownNames (o : t) : list string := map fst o.

(** [Object.keys(o)] (OrdinaryOwnPropertyKeys): array indices in
    ascending numeric order, then the other names in creation order. *)
Definition keys (o : t) : list string :=
  ascendingIndices (filter isArrayIndex (ownNames o))
  ++ filter (fun k => negb (isArrayIndex k)) (ownNames o).
End Props.

Arguments t : clear implicits.
Arguments lookup : clear implicits.

End JsObject.

(** ** Array.prototype.sort *)

Module JsArray.

Section Sort.
Context {A : Type}.

(** The comparator returns a Number; [None] stands for [NaN].  Only the
    sign of the result is used. *)
Variable compareFn : A -> A -> option Z.

(** SortCompare (ECMA-262, 23.1.3.30.2): a [NaN] result counts as [+0]. *)
Definition sortCompare (a b : A) : Z :=
  match compareFn a b with
  | Some v => v
  | None => 0
  end.

Fixpoint insert (x : A) (l : list A) : list A :=
  match l with
  | [] => [x]
  | y :: l' =>
      if (sortCompare x y <=? 0)%Z then x :: l else y :: insert x l'
  end.

(** [arr.sort(compareFn)].  Since ES2019 the sort is stable; for a
    consistent comparator that fixes the result, which the insertion sort
    below computes.  For an inconsistent comparator the order is
    implementation-defined and this sort is one admissible outcome. *)
Definition sort (l : list A) : list A := fold_right insert [] l.

(** The comparator subtracts keys, [compareFn a b = key b - key a], on the
    elements of [l]: it is then consistent there and orders them by
    descending key. *)
Variable key : A -> Z.

Definition subtracts (l : list A) : Prop :=
  forall a b, In a l -> In b l -> compareFn a b = Some (key b - key a)%Z.

Definition descending (a b : A) : Prop := (key b <= key a)%Z.
End Sort.

End JsArray.

(** ** Releases *)

Module Releases.

(** [Release] of [api/client.ts].  The view code receives the releases as
    [any[]] and guards against a missing [release_type], so that field is
    optional here ([None]: [null] or [undefined]). *)
Record Release := mkRelease {
  id : string;
  artist_id : string;
  artist_name : string;
  title : string;
  mbid : option string;
  release_date : string;
  release_type : option string;
  track_count : Z;
  is_new : bool;
  discovered_at : string
}.


(** [release.release_type || 'Other'] *)
Definition typeOf (release : Release) : string :=
  match release_type release with
  | None => "Other"
  | Some "" => "Other"
  | Some type => type
  end.

Definition typeOrder : list string :=
  ["Album"; "EP"; "Single"; "Compilation"; "Soundtrack"; "Other"].

Definition includes (l : list string) (k : string) : bool :=
  existsb (String.eqb k) l.

Definition hasType (k : string) (release : Release) : bool :=
  String.eqb (typeOf release) k.

Section Presenter.

(** [new Date(s).getTime()]: the time value in milliseconds, [None] for
    [NaN] (the string does not parse as a date). *)
Variable Date_getTime : string -> option Z.

(** [(a, b) => dateB.getTime() - dateA.getTime()].  Time values are
    integers of magnitude at most 8.64e15, so the floating-point
    difference has the sign of the exact one. *)
Definition byDateDesc (a b : Release) : option Z :=
  match Date_getTime (release_date a), Date_getTime (release_date b) with
  | Some dateA, Some dateB => Some (dateB - dateA)%Z
  | _, _ => None
  end.

(** One iteration of the first [forEach]; [None] is the [TypeError]
    raised by [grouped[type].push] when [grouped[type]] is inherited. *)
Definition addRelease (grouped : JsObject.t (list Release))
    (release : Release) : option (JsObject.t (list Release)) :=
  let type := typeOf release in
  match JsObject.get grouped type with
  | JsObject.Undefined =>
      let grouped := JsObject.set grouped type [] in
      Some (JsObject.set grouped type [release])
  | JsObject.Own bucket =>
      Some (JsObject.set grouped type (bucket ++ [release]))
  | JsObject.Inherited => None
  end.

Fixpoint bucketAll (releases : list Release)
    (grouped : JsObject.t (list Release))
    : option (JsObject.t (list Release)) :=
  match releases with
  | [] => Some grouped
  | release :: rest =>
      match addRelease grouped release with
      | Some grouped' => bucketAll rest grouped'
      | None => None
      end
  end.

(** One iteration of the second [forEach]: [grouped[type].sort(...)]. *)
Definition sortBucket (grouped : JsObject.t (list Release))
    (type : string) : JsObject.t (list Release) :=
  match JsObject.getOwn grouped type with
  | Some bucket =>
      JsObject.set grouped type (JsArray.sort byDateDesc bucket)
  | None => grouped
  end.

Definition groupReleasesByType (releases : list Release)
    : option (JsObject.t (list Release)) :=
  match bucketAll releases JsObject.empty with
  | Some grouped =>
      Some (fold_left sortBucket (JsObject.keys grouped) grouped)
  | None => None
  end.

Definition truthy (v : JsObject.lookup (list Release)) : bool :=
  match v with
  | JsObject.Undefined => false
  | _ => true
  end.

(** [typeOrder.filter(...)] followed by the [forEach] that pushes the
    types missing from [typeOrder]. *)
Definition sortedTypes (groupedReleases : JsObject.t (list Release))
    : list string :=
  fold_left
    (fun sorted type =>
       if negb (includes typeOrder type) then sorted ++ [type] else sorted)
    (JsObject.keys groupedReleases)
    (filter (fun type => truthy (JsObject.get groupedReleases type))
            typeOrder).

Definition bucketOf (groupedReleases : JsObject.t (list Release))
    (type : string) : list Release :=
  match JsObject.getOwn groupedReleases type with
  | Some bucket => bucket
  | None => []
  end.

(** What [ReleasesView] renders once the query has data. *)
Inductive rendering :=
| EmptyState                                     (* "No new releases" *)
| Sections (s : list (string * list Release))    (* one per type *)
| RenderError.                                   (* uncaught TypeError *)

Definition ReleasesView (releases : list Release) : rendering :=
  match releases with
  | [] => EmptyState
  | _ =>
      match groupReleasesByType releases with
      | Some groupedReleases =>
          Sections (map (fun type => (type, bucketOf groupedReleases type))
                        (sortedTypes groupedReleases))
      | None => RenderError
      end
  end.

End Presenter.

End Releases.

(** ** Dates used in the examples *)

Module IsoDate.

Fixpoint number (s : string) (acc : Z) : option Z :=
  match s with
  | EmptyString => Some acc
  | String c s' =>
      match JsObject.digit c with
      | Some d => number s' (10 * acc + Z.of_N d)%Z
      | None => None
      end
  end.

Definition leap (y : Z) : bool :=
  ((y mod 4 =? 0) && (negb (y mod 100 =? 0) || (y mod 400 =? 0)))%Z.

Definition daysInMonth (y m : Z) : Z :=
  if (m =? 2)%Z then (if leap y then 29 else 28)%Z
  else if ((m =? 4) || (m =? 6) || (m =? 9) || (m =? 11))%Z then 30%Z
  else 31%Z.

(** Days between 1970-01-01 and the given day of the proleptic Gregorian
    calendar. *)
Definition daysFromCivil (y m d : Z) : Z :=
  let y' := (if m <=? 2 then y - 1 else y)%Z in
  let era := (y' / 400)%Z in
  let yoe := (y' - era * 400)%Z in
  let mp := ((m + 9) mod 12)%Z in
  let doy := ((153 * mp + 2) / 5 + d - 1)%Z in
  let doe := (yoe * 365 + yoe / 4 - yoe / 100 + doy)%Z in
  (era * 146097 + doe - 719468)%Z.

(** [new Date(s).getTime()] on the date-only form [YYYY-MM-DD] of the Date
    Time String Format (ECMA-262, 21.4.1.32), which is read as UTC midnight;
    [None] ([NaN]) on the other strings.  An instance for the examples: the
    results of this development hold for every parser. *)
Definition getTime (s : string) : option Z :=
  if (String.length s =? 10)%nat
     && String.eqb (substring 4 1 s) "-" && String.eqb (substring 7 1 s) "-"
  then
    match number (substring 0 4 s) 0, number (substring 5 2 s) 0,
          number (substring 8 2 s) 0 with
    | Some y, Some m, Some d =>
        if ((1 <=? m) && (m <=? 12) && (1 <=? d) && (d <=? daysInMonth y m))%Z
        then Some (daysFromCivil y m d * 86400000)%Z
        else None
    | _, _, _ => None
    end
  else None.

End IsoDate.

(** ** The connection gate *)

Module Gate.

Inductive View :=
| ConnectionHelp
| ReleasesView
| ArtistsView
| StatsView
| NotificationsView
| SyncView
| ComingSoonView.

(** [apiConnected : boolean | null]; [None] is [null], the state before the
    first health check has settled. *)
Definition MainContent (currentView : string) (apiConnected : option bool)
    : View :=
  match apiConnected with
  | Some true =>
      if String.eqb currentView "releases" then ReleasesView
      else if String.eqb currentView "artists" then ArtistsView
      else if String.eqb currentView "stats" then StatsView
      else if String.eqb currentView "notifications" then NotificationsView
      else if String.eqb currentView "sync" then SyncView
      else ComingSoonView
  | _ => ConnectionHelp
  end.

(** The query keys of the [useQuery] hooks a view mounts. *)
Definition queryKeys (v : View) : list (list string) :=
  match v with
  | ReleasesView => [["releases"; "new"]]
  | ArtistsView => [["artists"]]
  | StatsView => [["releases"; "stats"]]
  | _ => []
  end.

(** Whether the view can render [ArtistSearchSection], the only component
    that searches and follows. *)
Definition hostsArtistSearch (v : View) : bool :=
  match v with
  | ArtistsView => true
  | _ => false
  end.

(** [testConnection]: the outcome of [api.health()] becomes the state. *)
Definition testConnection (healthy : bool) : option bool := Some healthy.

End Gate.

(** ** App: navigation, connection state and refresh *)

Module App.

(** An entry of [navigation] (the icon is left out). *)
Record NavItem := mkNavItem {
  id : string;
  name : string;
  description : string
}.

Definition navigation : list NavItem :=
  [ mkNavItem "releases" "New Releases"
      "Latest releases from your followed artists";
    mkNavItem "artists" "Artists" "Manage your followed artists";
    mkNavItem "stats" "Statistics" "Your music discovery insights";
    mkNavItem "notifications" "Notifications"
      "Notification history and settings";
    mkNavItem "sync" "Sync Status" "Release sync status and history" ].

(** [navigation.find(item => item.id === currentView)] *)
Definition currentNavItem (currentView : string) : option NavItem :=
  find (fun item => String.eqb (id item) currentView) navigation.

(** [currentNavItem?.name || 'Music Release Tracker'] *)
Definition headerTitle (currentView : string) : string :=
  match currentNavItem currentView with
  | Some item =>
      if String.eqb (name item) "" then "Music Release Tracker"
      else name item
  | None => "Music Release Tracker"
  end.

(** The connection status shown in the header. *)
Inductive Indicator := Connecting | Connected | Disconnected.

Definition connectionStatus (apiConnected : option bool) : Indicator :=
  match apiConnected with
  | None => Connecting
  | Some true => Connected
  | Some false => Disconnected
  end.

Inductive Call :=
| Health                (* api.health() *)
| InvalidateQueries.    (* queryClient.invalidateQueries() *)

(** The promises the component awaits: the health check of the startup
    effect, and the two awaits of [handleRefresh]. *)
Inductive Awaited := StartupHealth | RefreshInvalidate | RefreshHealth.

(** The component instance: its four [useState] cells, the pending timers
    of [handleRefresh], the promises it awaits and the calls it has made. *)
Record State := mkState {
  currentView : string;
  sidebarOpen : bool;
  apiConnected : option bool;
  isRefreshing : bool;
  timers : list Z;                      (* due times *)
  pending : list (nat * Awaited);
  nextRequest : nat;
  calls : list Call                     (* in the order issued *)
}.

Definition setCurrentView (v : string) (s : State) : State :=
  mkState v (sidebarOpen s) (apiConnected s) (isRefreshing s) (timers s)
    (pending s) (nextRequest s) (calls s).

Definition setSidebarOpen (v : bool) (s : State) : State :=
  mkState (currentView s) v (apiConnected s) (isRefreshing s) (timers s)
    (pending s) (nextRequest s) (calls s).

Definition setApiConnected (v : bool) (s : State) : State :=
  mkState (currentView s) (sidebarOpen s) (Some v) (isRefreshing s) (timers s)
    (pending s) (nextRequest s) (calls s).

Definition setIsRefreshing (v : bool) (s : State) : State :=
  mkState (currentView s) (sidebarOpen s) (apiConnected s) v (timers s)
    (pending s) (nextRequest s) (calls s).

(** [setTimeout(() => setIsRefreshing(false), 1000)] at time [now]. *)
Definition setTimeout (now : Z) (s : State) : State :=
  mkState (currentView s) (sidebarOpen s) (apiConnected s) (isRefreshing s)
    (timers s ++ [now + 1000]%Z) (pending s) (nextRequest s) (calls s).

Definition await (call : Call) (a : Awaited) (s : State) : State :=
  mkState (currentView s) (sidebarOpen s) (apiConnected s) (isRefreshing s)
    (timers s) (pending s ++ [(nextRequest s, a)]) (S (nextRequest s))
    (calls s ++ [call]).

Definition settled (request : nat) (s : State) : State :=
  mkState (currentView s) (sidebarOpen s) (apiConnected s) (isRefreshing s)
    (timers s)
    (filter (fun p => negb (Nat.eqb (fst p) request)) (pending s))
    (nextRequest s) (calls s).

Fixpoint awaited (request : nat) (l : list (nat * Awaited)) : option Awaited :=
  match l with
  | [] => None
  | (r, a) :: l' => if Nat.eqb r request then Some a else awaited request l'
  end.

(** The component after its first render: the startup effect has called
    [api.health()]. *)
Definition mount : State :=
  mkState "releases" false None false [] [(0, StartupHealth)] 1 [Health].

Definition handleViewChange (viewId : string) (s : State) : State :=
  setSidebarOpen false (setCurrentView viewId s).

(** [handleRefresh] up to its first [await]. *)
Definition handleRefresh (s : State) : State :=
  await InvalidateQueries RefreshInvalidate (setIsRefreshing true s).

(** [handleRefresh] from the first [await] on: a rejection goes to [catch],
    otherwise the health check is awaited. *)
Definition handleRefresh_invalidated (now : Z) (ok : bool) (s : State)
    : State :=
  if ok then await Health RefreshHealth s
  else setTimeout now (setApiConnected false s).

(** [handleRefresh] from the second [await] on. *)
Definition handleRefresh_probed (now : Z) (ok : bool) (s : State) : State :=
  setTimeout now (setApiConnected ok s).

Inductive Event :=
| NavClick (index : nat)      (* the button of [navigation[index]] *)
| MenuClick                   (* the menu button *)
| CloseClick                  (* the close button or the backdrop *)
| RefreshClick                (* the refresh button *)
| Settles (request : nat) (ok : bool).

(** The component's reaction to one event at time [now].  The refresh
    button is disabled while [isRefreshing]. *)
Definition handle (now : Z) (e : Event) (s : State) : State :=
  match e with
  | NavClick index =>
      match nth_error navigation index with
      | Some item => handleViewChange (id item) s
      | None => s
      end
  | MenuClick => setSidebarOpen true s
  | CloseClick => setSidebarOpen false s
  | RefreshClick => if isRefreshing s then s else handleRefresh s
  | Settles request ok =>
      match awaited request (pending s) with
      | Some StartupHealth => setApiConnected ok (settled request s)
      | Some RefreshInvalidate =>
          handleRefresh_invalidated now ok (settled request s)
      | Some RefreshHealth => handleRefresh_probed now ok (settled request s)
      | None => s
      end
  end.

(** Time passes up to [now]: the timers that are due run their callback,
    [setIsRefreshing(false)]. *)
Definition advance (now : Z) (s : State) : State :=
  if existsb (fun due => (due <=? now)%Z) (timers s) then
    mkState (currentView s) (sidebarOpen s) (apiConnected s) false
      (filter (fun due => negb (due <=? now)%Z) (timers s))
      (pending s) (nextRequest s) (calls s)
  else s.

Definition step (s : State) (te : Z * Event) : State :=
  handle (fst te) (snd te) (advance (fst te) s).

Definition run (s : State) (trace : list (Z * Event)) : State :=
  fold_left step trace s.

(** What the content area shows. *)
Definition content (s : State) : Gate.View :=
  Gate.MainContent (currentView s) (apiConnected s).

(** The awaits and timers of [handleRefresh] calls that have not finished. *)
Definition refreshesInProgress (s : State) : nat :=
  length (filter (fun p => match snd p with
                           | StartupHealth => false
                           | _ => true
                           end) (pending s))
  + length (timers s).

End App.

(** ** ArtistSearchSection *)

Module ArtistSearch.

(** An element of [results.artists]. *)
Record Artist := mkArtist {
  mbid : string;
  name : string;
  disambiguation : option string;
  country : option string;
  begin_date : option string;
  is_followed : bool
}.

Inductive ApiCall :=
| ArtistsSearch (query : string) (limit : Z)   (* api.artists.search(q, 8) *)
| ArtistsAdd (name mbid : string).             (* api.artists.add({...}) *)

(** How the promise of [api.artists.search] settles.  [SearchFulfilled a]
    carries [results.artists], [None] when it is missing or falsy;
    [SearchRejected] is a rejected request (network error, timeout, status
    outside 2xx), which the [try] block turns into an exception. *)
Inductive SearchSettlement :=
| SearchFulfilled (artists : option (list Artist))
| SearchRejected.

(** How the promise of [api.artists.add] settles; a rejection carries
    [error.response?.status] ([None]: [undefined], no response received). *)
Inductive AddSettlement :=
| AddFulfilled
| AddRejected (status : option Z).

(** The component instance: its four [useState] cells, the timer of the
    debounce effect, the promises it awaits and what it has done to the
    outside ([api] calls, [alert]s, [console.error]s, [onArtistAdded]). *)
Record Component := mkComponent {
  searchQuery : string;
  searchResults : list Artist;
  isSearching : bool;
  addingArtistId : option string;
  timer : option (Z * string);          (* due time, query captured *)
  pending : list (nat * ApiCall);       (* awaited requests *)
  nextRequest : nat;
  apiCalls : list ApiCall;              (* in the order issued *)
  alerts : list string;
  consoleErrors : list string;
  artistAdded : nat                     (* calls of onArtistAdded *)
}.

Definition quietPeriod : Z := 300.

Definition setSearchResults (v : list Artist) (c : Component) : Component :=
  mkComponent (searchQuery c) v (isSearching c) (addingArtistId c) (timer c)
    (pending c) (nextRequest c) (apiCalls c) (alerts c) (consoleErrors c)
    (artistAdded c).

Definition setIsSearching (v : bool) (c : Component) : Component :=
  mkComponent (searchQuery c) (searchResults c) v (addingArtistId c) (timer c)
    (pending c) (nextRequest c) (apiCalls c) (alerts c) (consoleErrors c)
    (artistAdded c).

Definition setAddingArtistId (v : option string) (c : Component) : Component :=
  mkComponent (searchQuery c) (searchResults c) (isSearching c) v (timer c)
    (pending c) (nextRequest c) (apiCalls c) (alerts c) (consoleErrors c)
    (artistAdded c).

(** [setSearchQuery(v)] together with the debounce effect it triggers.  A
    value equal to the current state causes no render; otherwise the effect
    depends on [searchQuery], so its cleanup clears the previous timer and a
    new one is set for [handleSearch(v)]. *)
Definition setSearchQuery (now : Z) (v : string) (c : Component) : Component :=
  if String.eqb v (searchQuery c) then c
  else
    mkComponent v (searchResults c) (isSearching c) (addingArtistId c)
      (Some (now + quietPeriod, v)%Z)
      (pending c) (nextRequest c) (apiCalls c) (alerts c) (consoleErrors c)
      (artistAdded c).

Definition clearTimer (c : Component) : Component :=
  mkComponent (searchQuery c) (searchResults c) (isSearching c)
    (addingArtistId c) None
    (pending c) (nextRequest c) (apiCalls c) (alerts c) (consoleErrors c)
    (artistAdded c).

(** Calls the api and awaits the promise. *)
Definition await (call : ApiCall) (c : Component) : Component :=
  mkComponent (searchQuery c) (searchResults c) (isSearching c)
    (addingArtistId c) (timer c)
    (pending c ++ [(nextRequest c, call)]) (S (nextRequest c))
    (apiCalls c ++ [call]) (alerts c) (consoleErrors c) (artistAdded c).

Definition settled (request : nat) (c : Component) : Component :=
  mkComponent (searchQuery c) (searchResults c) (isSearching c)
    (addingArtistId c) (timer c)
    (filter (fun p => negb (Nat.eqb (fst p) request)) (pending c))
    (nextRequest c) (apiCalls c) (alerts c) (consoleErrors c) (artistAdded c).

Definition alert (message : string) (c : Component) : Component :=
  mkComponent (searchQuery c) (searchResults c) (isSearching c)
    (addingArtistId c) (timer c) (pending c) (nextRequest c) (apiCalls c)
    (alerts c ++ [message]) (consoleErrors c) (artistAdded c).

Definition console_error (message : string) (c : Component) : Component :=
  mkComponent (searchQuery c) (searchResults c) (isSearching c)
    (addingArtistId c) (timer c) (pending c) (nextRequest c) (apiCalls c)
    (alerts c) (consoleErrors c ++ [message]) (artistAdded c).

Definition onArtistAdded (c : Component) : Component :=
  mkComponent (searchQuery c) (searchResults c) (isSearching c)
    (addingArtistId c) (timer c) (pending c) (nextRequest c) (apiCalls c)
    (alerts c) (consoleErrors c) (S (artistAdded c)).

(** The component after its first render at time [now]: the effect has set
    the timer for [handleSearch('')]. *)
Definition mount (now : Z) : Component :=
  mkComponent "" [] false None (Some (now + quietPeriod, "")%Z)
    [] 0 [] [] [] 0.

(** [handleSearch] up to its [await]. *)
Definition handleSearch (query : string) (c : Component) : Component :=
  if (String.length query <? 2)%nat then setSearchResults [] c
  else await (ArtistsSearch query 8) (setIsSearching true c).

(** [handleSearch] from its [await] on. *)
Definition handleSearch_resume (s : SearchSettlement) (c : Component)
    : Component :=
  match s with
  | SearchFulfilled artists =>
      let c := setSearchResults
                 (match artists with Some a => a | None => [] end) c in
      setIsSearching false c
  | SearchRejected =>
      let c := console_error "Search failed:" c in
      let c := setSearchResults [] c in
      setIsSearching false c
  end.

(** [handleAddArtist] up to its [await]. *)
Definition handleAddArtist (artist : Artist) (c : Component) : Component :=
  let c := setAddingArtistId (Some (mbid artist)) c in
  await (ArtistsAdd (name artist) (mbid artist)) c.

Definition alreadyFollowed : string :=
  "This artist is already in your follow list!".

Definition addFailed : string := "Failed to add artist. Please try again.".

(** [error.response?.status === 409] *)
Definition isConflict (status : option Z) : bool :=
  match status with
  | Some s => (s =? 409)%Z
  | None => false
  end.

(** [handleAddArtist] from its [await] on. *)
Definition handleAddArtist_resume (now : Z) (s : AddSettlement)
    (c : Component) : Component :=
  match s with
  | AddFulfilled =>
      let c := setSearchQuery now "" c in
      let c := setSearchResults [] c in
      let c := onArtistAdded c in
      setAddingArtistId None c
  | AddRejected status =>
      let c := console_error "Failed to add artist:" c in
      let c := if isConflict status then alert alreadyFollowed c
               else alert addFailed c in
      setAddingArtistId None c
  end.

Fixpoint awaited (request : nat) (l : list (nat * ApiCall)) : option ApiCall :=
  match l with
  | [] => None
  | (r, call) :: l' =>
      if Nat.eqb r request then Some call else awaited request l'
  end.

(** The follow button of a result is disabled while
    [artist.is_followed || addingArtistId === artist.mbid]. *)
Definition followDisabled (artist : Artist) (c : Component) : bool :=
  is_followed artist
  || match addingArtistId c with
     | Some i => String.eqb i (mbid artist)
     | None => false
     end.

Inductive Event :=
| Change (value : string)                         (* onChange of the input *)
| Follow (index : nat)                            (* click on a follow button *)
| SearchSettles (request : nat) (s : SearchSettlement)
| AddSettles (request : nat) (s : AddSettlement).

(** The component's reaction to one event at time [now]. *)
Definition handle (now : Z) (e : Event) (c : Component) : Component :=
  match e with
  | Change value => setSearchQuery now value c
  | Follow index =>
      match nth_error (searchResults c) index with
      | Some artist =>
          if followDisabled artist c then c else handleAddArtist artist c
      | None => c
      end
  | SearchSettles request s =>
      match awaited request (pending c) with
      | Some (ArtistsSearch _ _) => handleSearch_resume s (settled request c)
      | _ => c
      end
  | AddSettles request s =>
      match awaited request (pending c) with
      | Some (ArtistsAdd _ _) =>
          handleAddArtist_resume now s (settled request c)
      | _ => c
      end
  end.

(** Time passes up to [now]: a timer that is due runs its callback,
    [handleSearch] of the query it captured.  Timers are taken to run as
    soon as they are due, before an event of the same instant. *)
Definition advance (now : Z) (c : Component) : Component :=
  match timer c with
  | Some (due, query) =>
      if (due <=? now)%Z then handleSearch query (clearTimer c) else c
  | None => c
  end.

Definition step (c : Component) (te : Z * Event) : Component :=
  handle (fst te) (snd te) (advance (fst te) c).

Definition run (c : Component) (trace : list (Z * Event)) : Component :=
  fold_left step trace c.

(** The trace of a user typing: the input takes the given values at the
    given times. *)
Definition typing (inputs : list (Z * string)) : list (Z * Event) :=
  map (fun i => (fst i, Change (snd i))) inputs.

(** Inputs that follow the value [v] typed at time [t]: each is a change
    of the value and comes less than the quiet period after the previous
    one. *)
Fixpoint rapid (t : Z) (v : string) (inputs : list (Z * string)) : Prop :=
  match inputs with
  | [] => True
  | (t', v') :: rest =>
      (t <= t')%Z /\ (t' - t < quietPeriod)%Z /\ v' <> v /\ rapid t' v' rest
  end.

(** The searches the debounce is specified to have issued at time [now]
    when the last input, [v], was typed at time [t]. *)
Definition searchesExpected (t : Z) (v : string) (now : Z) : list ApiCall :=
  if (now <? t + quietPeriod)%Z then []
  else if (String.length v <? 2)%nat then []
  else [ArtistsSearch v 8].

(** The state between two inputs while the user types: the timer of the
    last value, typed at [t], is pending and the calls issued are still
    those issued before the typing, [before]. *)
Definition typed (c : Component) (t : Z) (v : string) (before : list ApiCall)
    : Prop :=
  searchQuery c = v /\ timer c = Some (t + quietPeriod, v)%Z /\
  apiCalls c = before.

(** Artists and traces for the examples. *)
Definition artist (mbid name : string) : Artist :=
  mkArtist mbid name None None None false.

Definition abba : Artist := artist "m1" "Abba".

Definition abc : Artist := artist "m2" "ABC".

(** "ab" typed at 0 and searched at 300, "abc" typed at 350 and searched at
    650; the answer for "abc" returns at 700, the one for "ab" at 800. *)
Definition overtaken : list (Z * Event) :=
  [ (0, Change "ab"); (350, Change "abc");
    (700, SearchSettles 1 (SearchFulfilled (Some [abc])));
    (800, SearchSettles 0 (SearchFulfilled (Some [abba]))) ]%Z.

(** A result is displayed and its follow button has been clicked. *)
Definition following : Component :=
  run (mount 0)
    [ (0, Change "ab"); (400, SearchSettles 0 (SearchFulfilled (Some [abba])));
      (500, Follow 0%nat) ]%Z.

(** The result list is rendered while [searchResults.length > 0]. *)
Definition resultsShown (c : Component) : bool :=
  negb (Nat.eqb (length (searchResults c)) 0).

(** The "No artists found" panel is rendered while
    [searchQuery.length >= 2 && searchResults.length === 0 && !isSearching]. *)
Definition noResultsShown (c : Component) : bool :=
  (2 <=? String.length (searchQuery c))%nat
  && Nat.eqb (length (searchResults c)) 0
  && negb (isSearching c).

(** A pending timer has captured the current value of the input. *)
Definition timerCurrent (c : Component) : Prop :=
  forall due query, timer c = Some (due, query) -> query = searchQuery c.

End ArtistSearch.

(** ** ArtistsView: the host of the search section *)

Module ArtistsView.

(** The view once its artists query has data: the [showSearch] cell, the
    mounted instance of [ArtistSearchSection] (rendered while [showSearch])
    and the calls of [refetch]. *)
Record State := mkState {
  showSearch : bool;
  section : option ArtistSearch.Component;
  refetches : nat
}.


Inductive Event :=
| AddArtistClick                          (* the "Add Artist" button *)
| InSection (e : ArtistSearch.Event).     (* an event of the search section *)

(** The [onArtistAdded] prop: [refetch(); setShowSearch(false)], which
    unmounts the section. *)
Definition onArtistAdded (s : State) : State :=
  mkState false None (S (refetches s)).

(** The view's reaction to one event at time [now].  The button toggles
    [showSearch], which mounts a new instance of the section or unmounts the
    current one; an event of the section reaches the mounted instance only,
    and the view runs [onArtistAdded] when the section has called it. *)
Definition handle (now : Z) (e : Event) (s : State) : State :=
  match e with
  | AddArtistClick =>
      if showSearch s then mkState false None (refetches s)
      else mkState true (Some (ArtistSearch.mount now)) (refetches s)
  | InSection e' =>
      match section s with
      | Some c =>
          let c' := ArtistSearch.step c (now, e') in
          if Nat.ltb (ArtistSearch.artistAdded c) (ArtistSearch.artistAdded c')
          then onArtistAdded s
          else mkState (showSearch s) (Some c') (refetches s)
      | None => s
      end
  end.

Definition run (s : State) (trace : list (Z * Event)) : State :=
  fold_left (fun s te => handle (fst te) (snd te) s) trace s.

End ArtistsView.

(** ** What the presenter is specified to produce *)

(** The distinct names of a list, in order of first appearance. *)
Fixpoint firstOccurrences (l : list string) : list string :=
  match l with
  | [] => []
  | k :: l' =>
      k :: filter (fun k' => negb (String.eqb k' k)) (firstOccurrences l')
  end.

Module Presented.

Import Releases.

(** The bucket order in the specification's words: the non-empty buckets
    among Album, EP, Single, Compilation, Soundtrack; then Other; then the
    types outside the canonical list in order of first appearance. *)
Definition specOrder (releases : list Release) : list string :=
  let types := map typeOf releases in
  filter (includes types) ["Album"; "EP"; "Single"; "Compilation"; "Soundtrack"]
  ++ filter (includes types) ["Other"]
  ++ filter (fun k => negb (includes typeOrder k)) (firstOccurrences types).

(** The bucket order of the code: as [specOrder], except that the types
    that are array indices come before the other non-canonical ones, in
    ascending numeric order. *)
Definition codeOrder (releases : list Release) : list string :=
  let types := map typeOf releases in
  filter (includes types) ["Album"; "EP"; "Single"; "Compilation"; "Soundtrack"]
  ++ filter (includes types) ["Other"]
  ++ JsObject.ascendingIndices
       (filter JsObject.isArrayIndex (firstOccurrences types))
  ++ filter (fun k => negb (JsObject.isArrayIndex k)
                      && negb (includes typeOrder k))
       (firstOccurrences types).

(** No release has a type that names a member of [Object.prototype]. *)
Definition plainTypes (releases : list Release) : Prop :=
  forall r, In r releases -> JsObject.inherited (typeOf r) = false.

(** The object the first [forEach] is specified to build from the releases
    [p]: one property per type, created in order of first appearance. *)
Definition unsorted (p : list Release) : JsObject.t (list Release) :=
  map (fun k => (k, filter (hasType k) p)) (firstOccurrences (map typeOf p)).

Section Dates.
Variable Date_getTime : string -> option Z.

(** Every release date parses. *)
Definition validDates (releases : list Release) : Prop :=
  forall r, In r releases -> Date_getTime (release_date r) <> None.

(** The time value of a release whose date parses. *)
Definition timeOf (r : Release) : Z :=
  match Date_getTime (release_date r) with
  | Some t => t
  | None => 0
  end.

Definition newestFirst (a b : Release) : Prop := (timeOf b <= timeOf a)%Z.

Definition dated (t : Z) (r : Release) : bool := (timeOf r =? t)%Z.

(** The object [groupReleasesByType] is specified to return: one property
    per type, created in order of first appearance, holding the releases of
    that type sorted by date. *)
Definition grouped (releases : list Release) : JsObject.t (list Release) :=
  map (fun k => (k, JsArray.sort (byDateDesc Date_getTime)
                      (filter (hasType k) releases)))
      (firstOccurrences (map typeOf releases)).

End Dates.

End Presented.

(** A release for the examples. *)
Definition release (id type date : string) : Releases.Release :=
  Releases.mkRelease id "artist" "Artist" id None date (Some type) 1 false "".

(** * Properties *)

(** ** Lists of names *)

Lemma includes_In (l : list string) (k : string) :
  Releases.includes l k = true <-> In k l.
Proof.
  unfold Releases.includes. rewrite existsb_exists. split.
  - intros [x [Hx Hk]]. apply String.eqb_eq in Hk. now subst.
  - intros H. exists k. split; [assumption | apply String.eqb_refl].
Qed.

Lemma includes_false (l : list string) (k : string) :
  Releases.includes l k = false <-> ~ In k l.
Proof.
  rewrite <- includes_In. destruct (Releases.includes l k); split; congruence.
Qed.

Lemma filter_filter {A : Type} (f g : A -> bool) (l : list A) :
  filter f (filter g l) = filter (fun x => g x && f x) l.
Proof.
  induction l as [|x l IH]; simpl; [reflexivity|].
  destruct (g x); simpl; [destruct (f x)|]; now rewrite IH.
Qed.

Lemma filter_all {A : Type} (f : A -> bool) (l : list A) :
  (forall x, In x l -> f x = true) -> filter f l = l.
Proof.
  induction l as [|x l IH]; simpl; intros H; [reflexivity|].
  rewrite (H x (or_introl eq_refl)). f_equal. apply IH. auto.
Qed.

Lemma filter_none {A : Type} (f : A -> bool) (l : list A) :
  (forall x, In x l -> f x = false) -> filter f l = [].
Proof.
  induction l as [|x l IH]; simpl; intros H; [reflexivity|].
  rewrite (H x (or_introl eq_refl)). apply IH. auto.
Qed.

Lemma firstOccurrences_In (l : list string) (k : string) :
  In k (firstOccurrences l) <-> In k l.
Proof.
  induction l as [|x l IH]; simpl; [tauto|].
  rewrite filter_In, IH. split.
  - intros [H | [H _]]; auto.
  - intros [H | H]; auto.
    destruct (String.eqb k x) eqn:E.
    + apply String.eqb_eq in E. auto.
    + right. split; [assumption | reflexivity].
Qed.

Lemma firstOccurrences_NoDup (l : list string) : NoDup (firstOccurrences l).
Proof.
  induction l as [|x l IH]; simpl; constructor.
  - rewrite filter_In. intros [_ H]. now rewrite String.eqb_refl in H.
  - now apply NoDup_filter.
Qed.

Lemma firstOccurrences_snoc (l : list string) (k : string) :
  firstOccurrences (l ++ [k]) =
  if Releases.includes l k then firstOccurrences l
  else firstOccurrences l ++ [k].
Proof.
  induction l as [|x l IH]; simpl; [reflexivity|].
  rewrite IH. unfold Releases.includes in *. simpl.
  destruct (existsb (String.eqb k) l) eqn:E.
  - now rewrite orb_true_r.
  - rewrite orb_false_r, filter_app. simpl.
    destruct (String.eqb k x); simpl; [now rewrite app_nil_r | reflexivity].
Qed.

(** ** Objects *)

Section ObjectFacts.
Context {V : Type}.
Implicit Types (o : JsObject.t V) (k : string) (ks : list string).

Lemma getOwn_map (f : string -> V) ks k :
  JsObject.getOwn (map (fun k' => (k', f k')) ks) k =
  if Releases.includes ks k then Some (f k) else None.
Proof.
  induction ks as [|x ks IH]; simpl; [reflexivity|].
  unfold Releases.includes in *. simpl. rewrite (String.eqb_sym k x).
  destruct (String.eqb x k) eqn:E; simpl; [|exact IH].
  apply String.eqb_eq in E. now subst.
Qed.

Lemma set_map_In (f : string -> V) ks k (v : V) :
  NoDup ks -> In k ks ->
  JsObject.set (map (fun k' => (k', f k')) ks) k v =
  map (fun k' => (k', if String.eqb k' k then v else f k')) ks.
Proof.
  induction ks as [|x ks IH]; simpl; intros Hnd Hin; [contradiction|].
  inversion Hnd as [|? ? Hx Hnd']; subst.
  destruct (String.eqb x k) eqn:E.
  - apply String.eqb_eq in E. subst x. f_equal. apply map_ext_in.
    intros a Ha. destruct (String.eqb a k) eqn:E'; [|reflexivity].
    apply String.eqb_eq in E'. subst. contradiction.
  - f_equal. apply IH; [assumption|].
    destruct Hin as [H|H]; [|assumption].
    subst. now rewrite String.eqb_refl in E.
Qed.

Lemma set_map_fresh (f : string -> V) ks k (v : V) :
  ~ In k ks ->
  JsObject.set (map (fun k' => (k', f k')) ks) k v =
  map (fun k' => (k', f k')) ks ++ [(k, v)].
Proof.
  induction ks as [|x ks IH]; simpl; intros Hin; [reflexivity|].
  destruct (String.eqb x k) eqn:E.
  - apply String.eqb_eq in E. subst. tauto.
  - f_equal. apply IH. tauto.
Qed.

Lemma set_set o k (v1 v2 : V) :
  JsObject.set (JsObject.set o k v1) k v2 = JsObject.set o k v2.
Proof.
  induction o as [|[x v] o IH]; simpl.
  - now rewrite String.eqb_refl.
  - destruct (String.eqb x k) eqn:E; simpl; rewrite E; [reflexivity|].
    now rewrite IH.
Qed.

Lemma insertIndex_perm k ks : Permutation (JsObject.insertIndex k ks) (k :: ks).
Proof.
  induction ks as [|x ks IH]; simpl; [apply Permutation_refl|].
  destruct (JsObject.indexValue k <=? JsObject.indexValue x)%N.
  - apply Permutation_refl.
  - eapply perm_trans; [apply perm_skip, IH | apply perm_swap].
Qed.

Lemma ascendingIndices_perm ks : Permutation (JsObject.ascendingIndices ks) ks.
Proof.
  induction ks as [|x ks IH]; simpl; [constructor|].
  eapply perm_trans; [apply insertIndex_perm | now apply perm_skip].
Qed.

Lemma keys_perm o : Permutation (JsObject.keys o) (JsObject.ownNames o).
Proof.
  unfold JsObject.keys.
  eapply perm_trans; [apply Permutation_app_tail, ascendingIndices_perm|].
  generalize (JsObject.ownNames o). intros l.
  induction l as [|x l IH]; simpl; [constructor|].
  destruct (JsObject.isArrayIndex x); simpl.
  - now apply perm_skip.
  - eapply perm_trans; [apply Permutation_sym, Permutation_middle|].
    now apply perm_skip.
Qed.

End ObjectFacts.

(** ** Sorting with a comparator that subtracts keys *)

Section SortFacts.
Context {A : Type}.
Variable compareFn : A -> A -> option Z.
Variable key : A -> Z.

Lemma insert_perm (x : A) (l : list A) :
  Permutation (JsArray.insert compareFn x l) (x :: l).
Proof.
  induction l as [|y l IH]; simpl; [apply Permutation_refl|].
  destruct (JsArray.sortCompare compareFn x y <=? 0)%Z.
  - apply Permutation_refl.
  - eapply perm_trans; [apply perm_skip, IH | apply perm_swap].
Qed.

Lemma sort_perm (l : list A) : Permutation (JsArray.sort compareFn l) l.
Proof.
  induction l as [|x l IH]; simpl; [constructor|].
  eapply perm_trans; [apply insert_perm | now apply perm_skip].
Qed.

Lemma sort_In (l : list A) (x : A) : In x (JsArray.sort compareFn l) <-> In x l.
Proof.
  split; apply Permutation_in;
    [apply sort_perm | apply Permutation_sym, sort_perm].
Qed.

Lemma sortCompare_subtracts (l : list A) (a b : A) :
  JsArray.subtracts compareFn key l -> In a l -> In b l ->
  JsArray.sortCompare compareFn a b = (key b - key a)%Z.
Proof.
  intros H Ha Hb. unfold JsArray.sortCompare. now rewrite (H a b Ha Hb).
Qed.

Lemma insert_sorted (x : A) (l : list A) :
  JsArray.subtracts compareFn key (x :: l) ->
  StronglySorted (JsArray.descending key) l ->
  StronglySorted (JsArray.descending key) (JsArray.insert compareFn x l).
Proof.
  intros Hs Hl. induction Hl as [|y l Hl IH Hy]; simpl.
  - repeat constructor.
  - rewrite (sortCompare_subtracts (x :: y :: l)) by (simpl; auto).
    destruct (key y - key x <=? 0)%Z eqn:E.
    + apply Z.leb_le in E. constructor; [now constructor|].
      constructor; [unfold JsArray.descending; lia|].
      rewrite Forall_forall in *. intros z Hz. specialize (Hy z Hz).
      unfold JsArray.descending in *. lia.
    + apply Z.leb_gt in E. constructor.
      * apply IH. intros a b Ha Hb. apply Hs; simpl in *; tauto.
      * rewrite Forall_forall in *. intros z Hz.
        apply (Permutation_in _ (insert_perm x l)) in Hz.
        destruct Hz as [<-|Hz]; [unfold JsArray.descending; lia | auto].
Qed.

Lemma sort_subtracts (l : list A) :
  JsArray.subtracts compareFn key l ->
  JsArray.subtracts compareFn key (JsArray.sort compareFn l).
Proof.
  intros H a b Ha Hb. apply H; now apply sort_In.
Qed.

Lemma sort_sorted (l : list A) :
  JsArray.subtracts compareFn key l ->
  StronglySorted (JsArray.descending key) (JsArray.sort compareFn l).
Proof.
  induction l as [|x l IH]; simpl; intros H; [constructor|].
  apply insert_sorted.
  - intros a b Ha Hb. apply H; simpl in *.
    + destruct Ha as [Ha|Ha]; [auto | right; now apply sort_In].
    + destruct Hb as [Hb|Hb]; [auto | right; now apply sort_In].
  - apply IH. intros a b Ha Hb. apply H; simpl; auto.
Qed.

Lemma insert_stable (t : Z) (x : A) (l : list A) :
  JsArray.subtracts compareFn key (x :: l) ->
  filter (fun a => (key a =? t)%Z) (JsArray.insert compareFn x l) =
  filter (fun a => (key a =? t)%Z) (x :: l).
Proof.
  induction l as [|y l IH]; intros Hs; [reflexivity|].
  cbn [JsArray.insert].
  rewrite (sortCompare_subtracts (x :: y :: l)) by (simpl; auto).
  destruct (key y - key x <=? 0)%Z eqn:E; [reflexivity|].
  apply Z.leb_gt in E. cbn [filter]. rewrite IH.
  - cbn [filter].
    destruct (key y =? t)%Z eqn:Ey, (key x =? t)%Z eqn:Ex; try reflexivity.
    apply Z.eqb_eq in Ey, Ex. lia.
  - intros a b Ha Hb. apply Hs; simpl in *; tauto.
Qed.

Lemma sort_stable (t : Z) (l : list A) :
  JsArray.subtracts compareFn key l ->
  filter (fun a => (key a =? t)%Z) (JsArray.sort compareFn l) =
  filter (fun a => (key a =? t)%Z) l.
Proof.
  induction l as [|x l IH]; simpl; intros H; [reflexivity|].
  rewrite insert_stable.
  - cbn [filter]. rewrite IH; [reflexivity|].
    intros a b Ha Hb. apply H; simpl; auto.
  - intros a b Ha Hb. apply H; simpl in *.
    + destruct Ha as [Ha|Ha]; [auto | right; now apply sort_In].
    + destruct Hb as [Hb|Hb]; [auto | right; now apply sort_In].
Qed.

End SortFacts.

(** ** groupReleasesByType *)

Section PresenterFacts.
Import Releases Presented.
Variable Date_getTime : string -> option Z.

Lemma hasType_snoc (k : string) (p : list Release) (r : Release) :
  filter (hasType k) (p ++ [r]) =
  filter (hasType k) p ++ (if String.eqb (typeOf r) k then [r] else []).
Proof. rewrite filter_app. reflexivity. Qed.

Lemma hasType_absent (k : string) (p : list Release) :
  ~ In k (map typeOf p) -> filter (hasType k) p = [].
Proof.
  intros H. apply filter_none. intros r Hr. unfold hasType.
  apply String.eqb_neq. intros E. apply H. rewrite <- E. now apply in_map.
Qed.

Lemma addRelease_unsorted (p : list Release) (r : Release) :
  JsObject.inherited (typeOf r) = false ->
  addRelease (unsorted p) r = Some (unsorted (p ++ [r])).
Proof.
  intros Hr. unfold addRelease, JsObject.get, unsorted.
  rewrite getOwn_map, map_app. simpl map. rewrite firstOccurrences_snoc.
  destruct (includes (firstOccurrences (map typeOf p)) (typeOf r)) eqn:E.
  - assert (Hin : In (typeOf r) (firstOccurrences (map typeOf p)))
      by now apply includes_In.
    assert (E' : includes (map typeOf p) (typeOf r) = true)
      by now apply includes_In, firstOccurrences_In.
    rewrite E', set_map_In by (auto using firstOccurrences_NoDup).
    f_equal. apply map_ext. intros k. rewrite hasType_snoc.
    rewrite (String.eqb_sym k). destruct (String.eqb (typeOf r) k) eqn:Ek.
    + apply String.eqb_eq in Ek. now subst.
    + now rewrite app_nil_r.
  - assert (Hin : ~ In (typeOf r) (firstOccurrences (map typeOf p)))
      by now apply includes_false.
    assert (E' : includes (map typeOf p) (typeOf r) = false)
      by (apply includes_false; now rewrite <- firstOccurrences_In).
    rewrite Hr, E', set_set, set_map_fresh by assumption.
    rewrite map_app. simpl. f_equal. f_equal.
    + apply map_ext_in. intros k Hk. rewrite hasType_snoc.
      destruct (String.eqb (typeOf r) k) eqn:Ek.
      * apply String.eqb_eq in Ek. subst. contradiction.
      * now rewrite app_nil_r.
    + rewrite hasType_snoc, String.eqb_refl, hasType_absent; [reflexivity|].
      now rewrite <- firstOccurrences_In.
Qed.

Lemma bucketAll_unsorted (rs p : list Release) :
  plainTypes rs -> bucketAll rs (unsorted p) = Some (unsorted (p ++ rs)).
Proof.
  revert p. induction rs as [|r rs IH]; intros p H; simpl.
  - now rewrite app_nil_r.
  - rewrite addRelease_unsorted by (apply H; simpl; auto).
    rewrite IH by (intros x Hx; apply H; simpl; auto).
    now rewrite <- app_assoc.
Qed.

Lemma bucketAll_plainTypes (rs p : list Release) :
  plainTypes p -> bucketAll rs (unsorted p) <> None -> plainTypes rs.
Proof.
  revert p. induction rs as [|r rs IH]; intros p Hp H x Hx; [contradiction|].
  simpl in H.
  assert (Hr : JsObject.inherited (typeOf r) = false).
  { destruct (JsObject.inherited (typeOf r)) eqn:E; [|reflexivity].
    exfalso. apply H. unfold addRelease, JsObject.get, unsorted.
    rewrite getOwn_map, E.
    destruct (includes (firstOccurrences (map typeOf p)) (typeOf r)) eqn:Ei;
      [|reflexivity].
    apply includes_In, firstOccurrences_In, in_map_iff in Ei.
    destruct Ei as [y [Hy Hin]]. specialize (Hp y Hin). congruence. }
  destruct Hx as [<-|Hx]; [assumption|].
  rewrite addRelease_unsorted in H by assumption.
  apply (IH (p ++ [r])); [|assumption|assumption].
  intros y Hy. apply in_app_or in Hy. destruct Hy as [Hy|[<-|[]]]; auto.
Qed.

Lemma sortBucket_map (k : string) (g : JsObject.t (list Release)) :
  NoDup (JsObject.ownNames g) ->
  sortBucket Date_getTime g k =
  map (fun p => (fst p, if String.eqb (fst p) k
                        then JsArray.sort (byDateDesc Date_getTime) (snd p)
                        else snd p)) g.
Proof.
  unfold sortBucket. induction g as [|[x b] g IH]; intros Hnd; [reflexivity|].
  inversion Hnd as [|? ? Hx Hnd']; subst. simpl.
  destruct (String.eqb x k) eqn:E; simpl.
  - f_equal. apply String.eqb_eq in E. subst x.
    rewrite <- (map_id g) at 1. apply map_ext_in. intros [y c] Hy. simpl.
    destruct (String.eqb y k) eqn:E'; [|reflexivity].
    apply String.eqb_eq in E'. subst y. exfalso. apply Hx.
    unfold JsObject.ownNames. change k with (fst (k, c)). now apply in_map.
  - specialize (IH Hnd'). destruct (JsObject.getOwn g k); f_equal.
    + exact IH.
    + exact IH.
Qed.

Lemma sortBuckets_map (ks : list string) (g : JsObject.t (list Release)) :
  NoDup ks -> NoDup (JsObject.ownNames g) ->
  fold_left (sortBucket Date_getTime) ks g =
  map (fun p => (fst p, if includes ks (fst p)
                        then JsArray.sort (byDateDesc Date_getTime) (snd p)
                        else snd p)) g.
Proof.
  revert g. induction ks as [|k ks IH]; intros g Hks Hg; simpl.
  - rewrite <- (map_id g) at 1. apply map_ext. now intros [x b].
  - inversion Hks as [|? ? Hk Hks']; subst.
    rewrite sortBucket_map by assumption. rewrite IH; [|assumption|].
    + rewrite map_map. apply map_ext. intros [x b]. simpl.
      unfold includes. simpl. rewrite (String.eqb_sym x k).
      destruct (String.eqb k x) eqn:E; simpl; [|reflexivity].
      apply String.eqb_eq in E. subst x.
      fold (includes ks k). apply includes_false in Hk. now rewrite Hk.
    + unfold JsObject.ownNames. rewrite map_map. simpl. exact Hg.
Qed.

Lemma ownNames_grouped (rs : list Release) :
  JsObject.ownNames (grouped Date_getTime rs) =
  firstOccurrences (map typeOf rs).
Proof.
  unfold JsObject.ownNames, grouped. rewrite map_map. simpl. apply map_id.
Qed.

Lemma includes_firstOccurrences (l : list string) (k : string) :
  includes (firstOccurrences l) k = includes l k.
Proof.
  apply Bool.eq_iff_eq_true. now rewrite !includes_In, firstOccurrences_In.
Qed.

Lemma groupReleasesByType_grouped (rs : list Release) :
  plainTypes rs ->
  groupReleasesByType Date_getTime rs = Some (grouped Date_getTime rs).
Proof.
  intros H. unfold groupReleasesByType.
  change (@JsObject.empty (list Release)) with (unsorted []).
  rewrite bucketAll_unsorted by assumption. simpl app. f_equal.
  assert (Hn : JsObject.ownNames (unsorted rs) =
               firstOccurrences (map typeOf rs)).
  { unfold JsObject.ownNames, unsorted. rewrite map_map. apply map_id. }
  rewrite sortBuckets_map.
  - unfold unsorted at 2. unfold grouped. rewrite map_map.
    apply map_ext_in. intros k Hk. simpl.
    replace (includes (JsObject.keys (unsorted rs)) k) with true;
      [reflexivity|].
    symmetry. apply includes_In.
    apply (Permutation_in _ (Permutation_sym (keys_perm (unsorted rs)))).
    now rewrite Hn.
  - apply (Permutation_NoDup (Permutation_sym (keys_perm (unsorted rs)))).
    rewrite Hn. apply firstOccurrences_NoDup.
  - rewrite Hn. apply firstOccurrences_NoDup.
Qed.

Lemma groupReleasesByType_plainTypes (rs : list Release) :
  groupReleasesByType Date_getTime rs <> None -> plainTypes rs.
Proof.
  intros H. apply (bucketAll_plainTypes rs []).
  - intros r [].
  - intros E. apply H. unfold groupReleasesByType.
    change (@JsObject.empty (list Release)) with (unsorted []).
    now rewrite E.
Qed.

Lemma bucketOf_grouped (rs : list Release) (k : string) :
  bucketOf (grouped Date_getTime rs) k =
  JsArray.sort (byDateDesc Date_getTime) (filter (hasType k) rs).
Proof.
  unfold bucketOf, grouped. rewrite getOwn_map, includes_firstOccurrences.
  destruct (includes (map typeOf rs) k) eqn:E; [reflexivity|].
  apply includes_false in E. now rewrite hasType_absent.
Qed.

Lemma In_grouped (rs : list Release) (k : string) (b : list Release) :
  In (k, b) (grouped Date_getTime rs) ->
  b = JsArray.sort (byDateDesc Date_getTime) (filter (hasType k) rs).
Proof.
  unfold grouped. rewrite in_map_iff. intros [k' [E _]]. congruence.
Qed.

Lemma pushMissing_filter (ks sorted : list string) :
  fold_left
    (fun sorted type =>
       if negb (includes typeOrder type) then sorted ++ [type] else sorted)
    ks sorted =
  sorted ++ filter (fun k => negb (includes typeOrder k)) ks.
Proof.
  revert sorted. induction ks as [|k ks IH]; intros sorted;
    cbn [fold_left filter].
  - now rewrite app_nil_r.
  - rewrite IH. destruct (negb (includes typeOrder k)); [|reflexivity].
    now rewrite <- app_assoc.
Qed.

Lemma typeOrder_plain (k : string) :
  In k typeOrder ->
  JsObject.inherited k = false /\ JsObject.isArrayIndex k = false.
Proof.
  intros H. simpl in H.
  repeat (destruct H as [<-|H]; [split; reflexivity|]). contradiction.
Qed.

Lemma arrayIndex_not_typeOrder (k : string) :
  JsObject.isArrayIndex k = true -> includes typeOrder k = false.
Proof.
  intros H. apply includes_false. intros Hin.
  apply typeOrder_plain in Hin. destruct Hin as [_ Hin]. congruence.
Qed.

Lemma sortedTypes_grouped (rs : list Release) :
  sortedTypes (grouped Date_getTime rs) = codeOrder rs.
Proof.
  unfold sortedTypes, codeOrder. rewrite pushMissing_filter.
  unfold JsObject.keys. rewrite ownNames_grouped.
  rewrite filter_app, filter_filter.
  rewrite (filter_all (fun k => negb (includes typeOrder k))).
  - rewrite (app_assoc (filter _ [_; _; _; _; _])). f_equal.
    rewrite <- filter_app.
    change (["Album"; "EP"; "Single"; "Compilation"; "Soundtrack"] ++ ["Other"])
      with typeOrder.
    apply filter_ext_in. intros k Hk. apply typeOrder_plain in Hk.
    unfold JsObject.get, grouped.
    rewrite getOwn_map, includes_firstOccurrences.
    destruct (includes (map typeOf rs) k); [reflexivity|].
    destruct Hk as [-> _]. reflexivity.
  - intros k Hk.
    apply (Permutation_in _ (ascendingIndices_perm _)) in Hk.
    apply filter_In in Hk. destruct Hk as [_ Hk].
    now rewrite arrayIndex_not_typeOrder.
Qed.

Lemma codeOrder_specOrder (rs : list Release) :
  (forall r, In r rs -> JsObject.isArrayIndex (typeOf r) = false) ->
  codeOrder rs = specOrder rs.
Proof.
  intros H. unfold codeOrder, specOrder.
  assert (Hk : forall k, In k (firstOccurrences (map typeOf rs)) ->
                         JsObject.isArrayIndex k = false).
  { intros k Hk. apply firstOccurrences_In, in_map_iff in Hk.
    destruct Hk as [r [<- Hr]]. auto. }
  rewrite (filter_none JsObject.isArrayIndex) by assumption. simpl app.
  do 2 f_equal. apply filter_ext_in. intros k Hin. now rewrite (Hk k Hin).
Qed.

Lemma codeOrder_In (rs : list Release) (k : string) :
  In k (codeOrder rs) <-> In k (map typeOf rs).
Proof using Type.
  unfold codeOrder. rewrite !in_app_iff, !filter_In. split.
  - intros [[_ H]|[[_ H]|[H|[H _]]]].
    + now apply includes_In.
    + now apply includes_In.
    + apply (Permutation_in _ (ascendingIndices_perm _)) in H.
      apply filter_In in H. now apply firstOccurrences_In.
    + now apply firstOccurrences_In.
  - intros H. destruct (includes typeOrder k) eqn:Ec.
    + apply includes_In in Ec.
      change typeOrder
        with (["Album"; "EP"; "Single"; "Compilation"; "Soundtrack"]
              ++ ["Other"]) in Ec.
      apply in_app_or in Ec. apply includes_In in H.
      destruct Ec as [Ec|Ec]; [left | right; left]; split; assumption.
    + right. right. apply firstOccurrences_In in H.
      destruct (JsObject.isArrayIndex k) eqn:Ei.
      * left.
        apply (Permutation_in _ (Permutation_sym (ascendingIndices_perm _))).
        apply filter_In. split; assumption.
      * right. split; [assumption | reflexivity].
Qed.

End PresenterFacts.

(** ** The grouping presenter against its specification *)

Section PresenterSpec.
Import Releases Presented.
Variable Date_getTime : string -> option Z.

(** C4 (amended).  For every list of releases none of whose types names a
    member of [Object.prototype], [groupReleasesByType] returns an object
    whose bucket for a type holds exactly the releases of that type, a
    missing or empty type counting as "Other"; the buckets are displayed in
    the order Album, EP, Single, Compilation, Soundtrack (the non-empty ones),
    then Other, then the types outside the canonical list: first those that
    are array indices, in ascending numeric order, then the others in order
    of first appearance; the types displayed are exactly those that occur.
    Where no type is an array index this is the order of the
    specification. *)
Theorem bucket_order (releases : list Release) :
  plainTypes releases ->
  (forall r, release_type r = None \/ release_type r = Some "" ->
             typeOf r = "Other") /\
  exists g,
    groupReleasesByType Date_getTime releases = Some g /\
    (forall k, Permutation (bucketOf g k) (filter (hasType k) releases)) /\
    sortedTypes g = codeOrder releases /\
    (forall k, In k (sortedTypes g) <-> In k (map typeOf releases)) /\
    ((forall r, In r releases -> JsObject.isArrayIndex (typeOf r) = false) ->
     sortedTypes g = specOrder releases) /\
    (releases <> [] ->
     ReleasesView Date_getTime releases =
     Sections (map (fun k => (k, bucketOf g k)) (codeOrder releases))).
Proof.
  intros H. split.
  { intros r [E|E]; unfold typeOf; now rewrite E. }
  exists (grouped Date_getTime releases).
  pose proof (groupReleasesByType_grouped Date_getTime releases H) as Hg.
  repeat split.
  - exact Hg.
  - intros k. rewrite bucketOf_grouped. apply sort_perm.
  - apply sortedTypes_grouped.
  - rewrite sortedTypes_grouped. apply codeOrder_In.
  - rewrite sortedTypes_grouped. apply codeOrder_In.
  - intros Hi. rewrite sortedTypes_grouped. now apply codeOrder_specOrder.
  - intros Hne. unfold ReleasesView. destruct releases as [|r rs]; [easy|].
    now rewrite Hg, sortedTypes_grouped.
Qed.

(** C5 (amended).  For every list of releases whose release dates all parse,
    each bucket of the object returned by [groupReleasesByType] holds the
    releases of its type sorted by release date descending, and the releases
    of one date are in their input order; an object is returned whenever no
    type names a member of [Object.prototype]. *)
Theorem buckets_newest_first_stable (releases : list Release) :
  validDates Date_getTime releases ->
  (plainTypes releases ->
   groupReleasesByType Date_getTime releases <> None) /\
  (forall g, groupReleasesByType Date_getTime releases = Some g ->
   forall k bucket, In (k, bucket) g ->
     Permutation bucket (filter (hasType k) releases) /\
     StronglySorted (newestFirst Date_getTime) bucket /\
     forall t, filter (dated Date_getTime t) bucket =
               filter (dated Date_getTime t) (filter (hasType k) releases)).
Proof.
  intros Hv. split.
  { intros H. now rewrite groupReleasesByType_grouped. }
  intros g Hg k bucket Hin.
  assert (Hp : plainTypes releases).
  { apply (groupReleasesByType_plainTypes Date_getTime). congruence. }
  rewrite groupReleasesByType_grouped in Hg by assumption.
  injection Hg as <-. apply In_grouped in Hin. subst bucket.
  assert (Hs : forall a b,
             In a (filter (hasType k) releases) ->
             In b (filter (hasType k) releases) ->
             byDateDesc Date_getTime a b =
             Some (timeOf Date_getTime b - timeOf Date_getTime a)%Z).
  { intros a b Ha Hb. apply filter_In in Ha, Hb.
    destruct Ha as [Ha _], Hb as [Hb _]. apply Hv in Ha, Hb.
    unfold byDateDesc, timeOf.
    destruct (Date_getTime (release_date a)); [|congruence].
    destruct (Date_getTime (release_date b)); [|congruence].
    reflexivity. }
  repeat split.
  - apply sort_perm.
  - apply (sort_sorted _ (timeOf Date_getTime)). exact Hs.
  - intros t. apply (sort_stable _ (timeOf Date_getTime)). exact Hs.
Qed.

(** C6.  On the empty list [groupReleasesByType] returns the empty object:
    there is no bucket and no type to display, no error is raised, and
    [ReleasesView] renders its empty state. *)
Theorem empty_input_no_buckets :
  groupReleasesByType Date_getTime [] = Some JsObject.empty /\
  JsObject.keys (@JsObject.empty (list Release)) = [] /\
  sortedTypes (@JsObject.empty (list Release)) = [] /\
  ReleasesView Date_getTime [] = EmptyState.
Proof. repeat split. Qed.

End PresenterSpec.

(** The amended C4 at a concrete input with an array-index type. *)
Lemma bucket_order_witness :
  Presented.plainTypes
    [release "1" "Live" "2024-01-01"; release "2" "7" "2024-02-01";
     release "3" "Album" "2023-05-05"] /\
  exists g,
    Releases.groupReleasesByType IsoDate.getTime
      [release "1" "Live" "2024-01-01"; release "2" "7" "2024-02-01";
       release "3" "Album" "2023-05-05"] = Some g /\
    Releases.sortedTypes g = ["Album"; "7"; "Live"].
Proof.
  assert (H : Presented.plainTypes
    [release "1" "Live" "2024-01-01"; release "2" "7" "2024-02-01";
     release "3" "Album" "2023-05-05"]).
  { intros r Hr. simpl in Hr.
    repeat (destruct Hr as [<-|Hr]; [reflexivity|]). contradiction. }
  split; [exact H|].
  destruct (bucket_order IsoDate.getTime _ H) as [_ [g [Hg [_ [Ho _]]]]].
  exists g. split; [exact Hg|]. rewrite Ho. reflexivity.
Defined.

(** C4 as stated fails: the type "7" is displayed before the type "Live"
    that appears first in the input. *)
Lemma bucket_order_counterexample :
  let releases :=
    [release "1" "Live" "2024-01-01"; release "2" "7" "2024-02-01"] in
  option_map Releases.sortedTypes
    (Releases.groupReleasesByType IsoDate.getTime releases)
  = Some ["7"; "Live"] /\
  Presented.specOrder releases = ["Live"; "7"] /\
  option_map Releases.sortedTypes
    (Releases.groupReleasesByType IsoDate.getTime releases)
  <> Some (Presented.specOrder releases).
Proof. repeat split. discriminate. Qed.

(** The amended C5 at a concrete input with two releases of one date. *)
Lemma buckets_newest_first_stable_witness :
  let r1 := release "1" "Single" "2023-01-01" in
  let r2 := release "2" "Single" "2024-01-01" in
  let r3 := release "3" "Album" "2022-06-01" in
  let r4 := release "4" "Single" "2023-01-01" in
  Presented.validDates IsoDate.getTime [r1; r2; r3; r4] /\
  Releases.groupReleasesByType IsoDate.getTime [r1; r2; r3; r4]
  = Some [("Single", [r2; r1; r4]); ("Album", [r3])] /\
  StronglySorted (Presented.newestFirst IsoDate.getTime) [r2; r1; r4] /\
  filter (Presented.dated IsoDate.getTime 1672531200000) [r2; r1; r4]
  = filter (Presented.dated IsoDate.getTime 1672531200000)
      (filter (Releases.hasType "Single") [r1; r2; r3; r4]).
Proof.
  intros r1 r2 r3 r4.
  assert (H : Presented.validDates IsoDate.getTime [r1; r2; r3; r4]).
  { intros r Hr. simpl in Hr.
    repeat (destruct Hr as [<-|Hr]; [discriminate|]). contradiction. }
  split; [exact H|]. split; [reflexivity|].
  destruct (buckets_newest_first_stable IsoDate.getTime _ H) as [_ Hs].
  destruct (Hs [("Single", [r2; r1; r4]); ("Album", [r3])] eq_refl
              "Single" [r2; r1; r4] (or_introl eq_refl))
    as [_ [Hsorted Hstable]].
  split; [exact Hsorted | exact (Hstable _)].
Defined.

(** C5 as stated fails: with a release whose date does not parse between
    them, a release of 2023 stays before a release of 2024.  (The comparator
    returns [NaN] on both adjacent pairs, so the array is left as it is.) *)
Lemma buckets_newest_first_counterexample :
  let r1 := release "1" "Single" "2023-01-01" in
  let r2 := release "2" "Single" "" in
  let r3 := release "3" "Single" "2024-01-01" in
  Releases.groupReleasesByType IsoDate.getTime [r1; r2; r3]
  = Some [("Single", [r1; r2; r3])] /\
  IsoDate.getTime (Releases.release_date r1) = Some 1672531200000%Z /\
  IsoDate.getTime (Releases.release_date r2) = None /\
  IsoDate.getTime (Releases.release_date r3) = Some 1704067200000%Z /\
  ~ StronglySorted (Presented.newestFirst IsoDate.getTime) [r1; r2; r3].
Proof.
  repeat split. intros H. inversion H as [|? ? _ Hall]; subst.
  inversion Hall as [|? ? _ Hall']; subst.
  inversion Hall' as [|? ? H3 _]; subst.
  unfold Presented.newestFirst, Presented.timeOf in H3. simpl in H3.
  vm_compute in H3. apply H3. reflexivity.
Qed.

(** ** The connection gate against its specification *)

(** C8.  While the connection state is unknown ([null]) or disconnected
    ([false]), [MainContent] renders [ConnectionHelp] whatever view is
    selected: no [useQuery] hook is mounted and the search section, the only
    place that searches and follows, is not rendered. *)
Theorem gate_closed (currentView : string) (apiConnected : option bool) :
  apiConnected <> Some true ->
  Gate.MainContent currentView apiConnected = Gate.ConnectionHelp /\
  Gate.queryKeys (Gate.MainContent currentView apiConnected) = [] /\
  Gate.hostsArtistSearch (Gate.MainContent currentView apiConnected) = false.
Proof.
  intros H. destruct apiConnected as [[|]|]; [congruence| |]; repeat split.
Qed.

Lemma gate_closed_witness :
  Gate.testConnection false <> Some true /\
  Gate.MainContent "artists" (Gate.testConnection false)
  = Gate.ConnectionHelp /\
  Gate.MainContent "releases" None = Gate.ConnectionHelp.
Proof.
  split; [discriminate|]. split.
  - apply (gate_closed "artists" (Gate.testConnection false)). discriminate.
  - apply (gate_closed "releases" None). discriminate.
Defined.

(** ** The search section: settled requests *)

Section SettledRequests.
Import ArtistSearch.
Implicit Types (c : Component) (now : Z) (request : nat).

Lemma handle_search_settles now c request query limit s :
  awaited request (pending c) = Some (ArtistsSearch query limit) ->
  handle now (SearchSettles request s) c =
  handleSearch_resume s (settled request c).
Proof. intros H. simpl. now rewrite H. Qed.

Lemma handle_add_settles now c request name mbid s :
  awaited request (pending c) = Some (ArtistsAdd name mbid) ->
  handle now (AddSettles request s) c =
  handleAddArtist_resume now s (settled request c).
Proof. intros H. simpl. now rewrite H. Qed.

(** C1 (amended).  No response is discarded: when the response to an issued
    search returns, its result list is committed as the displayed search
    results, whatever the current input is and whatever other searches have
    been issued or answered since.  The displayed results are those of the
    response that returned last. *)
Theorem search_response_committed now c request query limit artists :
  awaited request (pending c) = Some (ArtistsSearch query limit) ->
  let c' := handle now (SearchSettles request (SearchFulfilled artists)) c in
  searchResults c' = match artists with Some a => a | None => [] end /\
  searchQuery c' = searchQuery c /\
  apiCalls c' = apiCalls c /\
  alerts c' = alerts c.
Proof.
  intros H c'. subst c'. rewrite (handle_search_settles _ _ _ _ _ _ H).
  repeat split.
Qed.

(** C9.  When the request of a search fails, the displayed results become
    the empty list and the loading flag is cleared; the failure goes to the
    console only: nothing is alerted, no call is made and the input is
    untouched. *)
Theorem search_failure_swallowed now c request query limit :
  awaited request (pending c) = Some (ArtistsSearch query limit) ->
  let c' := handle now (SearchSettles request SearchRejected) c in
  searchResults c' = [] /\
  isSearching c' = false /\
  alerts c' = alerts c /\
  consoleErrors c' = consoleErrors c ++ ["Search failed:"] /\
  apiCalls c' = apiCalls c /\
  searchQuery c' = searchQuery c /\
  addingArtistId c' = addingArtistId c.
Proof.
  intros H c'. subst c'. rewrite (handle_search_settles _ _ _ _ _ _ H).
  repeat split.
Qed.

(** C7.  When a follow request fails, the user is alerted with one of two
    different messages: the already-followed one exactly when the response
    status is 409, the generic try-again one for every other failure
    (another status, or no response at all). *)
Theorem add_failure_classified now c request name mbid status :
  awaited request (pending c) = Some (ArtistsAdd name mbid) ->
  let c' := handle now (AddSettles request (AddRejected status)) c in
  (status = Some 409%Z -> alerts c' = alerts c ++ [alreadyFollowed]) /\
  (status <> Some 409%Z -> alerts c' = alerts c ++ [addFailed]) /\
  alreadyFollowed <> addFailed.
Proof.
  intros H c'. subst c'. rewrite (handle_add_settles _ _ _ _ _ _ H).
  repeat split.
  - intros ->. reflexivity.
  - intros Hs. unfold handleAddArtist_resume.
    destruct status as [s|]; simpl; [|reflexivity].
    destruct (Z.eqb_spec s 409); [subst; congruence | reflexivity].
  - discriminate.
Qed.

(** C10.  A follow that fails, with a conflict or otherwise, leaves the
    search query and the displayed results as they were, both when the
    request is issued and when it settles; they are cleared only when it
    succeeds.  In both cases the in-flight marker is reset to [null]. *)
Theorem add_failure_keeps_search now c request name mbid :
  awaited request (pending c) = Some (ArtistsAdd name mbid) ->
  (forall status,
     let c' := handle now (AddSettles request (AddRejected status)) c in
     searchQuery c' = searchQuery c /\
     searchResults c' = searchResults c /\
     addingArtistId c' = None) /\
  (let c' := handle now (AddSettles request AddFulfilled) c in
   searchQuery c' = "" /\
   searchResults c' = [] /\
   addingArtistId c' = None) /\
  (forall a,
     searchQuery (handleAddArtist a c) = searchQuery c /\
     searchResults (handleAddArtist a c) = searchResults c).
Proof.
  intros H. repeat split.
  - rewrite (handle_add_settles _ _ _ _ _ _ H).
    unfold handleAddArtist_resume. now destruct (isConflict status).
  - rewrite (handle_add_settles _ _ _ _ _ _ H).
    unfold handleAddArtist_resume. now destruct (isConflict status).
  - rewrite (handle_add_settles _ _ _ _ _ _ H).
    unfold handleAddArtist_resume. now destruct (isConflict status).
  - rewrite (handle_add_settles _ _ _ _ _ _ H).
    unfold handleAddArtist_resume, setSearchQuery. simpl.
    destruct (searchQuery c) eqn:E; simpl; [exact E | reflexivity].
  - rewrite (handle_add_settles _ _ _ _ _ _ H). reflexivity.
  - rewrite (handle_add_settles _ _ _ _ _ _ H). reflexivity.
Qed.

End SettledRequests.

(** ** The search section: debounce *)

Section Debounce.
Import ArtistSearch.
Implicit Types (c : Component) (t now : Z) (v : string).

Lemma handleSearch_short query c :
  (String.length query < 2)%nat ->
  handleSearch query c = setSearchResults [] c.
Proof.
  intros H. unfold handleSearch.
  destruct (Nat.ltb_spec (String.length query) 2); [reflexivity | lia].
Qed.

Lemma handleSearch_long query c :
  (2 <= String.length query)%nat ->
  handleSearch query c = await (ArtistsSearch query 8) (setIsSearching true c).
Proof.
  intros H. unfold handleSearch.
  destruct (Nat.ltb_spec (String.length query) 2); [lia | reflexivity].
Qed.

Lemma advance_early c t v now :
  timer c = Some (t + quietPeriod, v)%Z -> (now < t + quietPeriod)%Z ->
  advance now c = c.
Proof.
  intros H Hlt. unfold advance. rewrite H.
  destruct (Z.leb_spec (t + quietPeriod) now); [lia | reflexivity].
Qed.

Lemma advance_due c t v now :
  timer c = Some (t + quietPeriod, v)%Z -> (t + quietPeriod <= now)%Z ->
  advance now c = handleSearch v (clearTimer c).
Proof.
  intros H Hle. unfold advance. rewrite H.
  destruct (Z.leb_spec (t + quietPeriod) now); [reflexivity | lia].
Qed.

Lemma advance_searchQuery c now : searchQuery (advance now c) = searchQuery c.
Proof.
  unfold advance. destruct (timer c) as [[due query]|]; [|reflexivity].
  destruct (due <=? now)%Z; [|reflexivity].
  unfold handleSearch. now destruct (String.length query <? 2)%nat.
Qed.

Lemma change_typed c t v :
  v <> searchQuery c -> typed (handle t (Change v) c) t v (apiCalls c).
Proof.
  intros Hv. simpl. unfold setSearchQuery.
  destruct (String.eqb_spec v (searchQuery c)); [contradiction|].
  repeat split.
Qed.

Lemma step_typed c t v t' v' before :
  typed c t v before -> (t' - t < quietPeriod)%Z -> v' <> v ->
  typed (step c (t', Change v')) t' v' before.
Proof.
  intros [Hq [Ht Hc]] Hlt Hv. unfold step. cbn [fst snd].
  rewrite (advance_early c t v) by (assumption || lia).
  rewrite <- Hc. apply change_typed. congruence.
Qed.

Lemma last_cons {A : Type} (rest : list A) : forall x d,
  last (x :: rest) d = last rest x.
Proof.
  induction rest as [|y rest IH]; intros x d; [reflexivity|].
  change (last (x :: y :: rest) d) with (last (y :: rest) d).
  now rewrite (IH y d), (IH y x).
Qed.

Lemma run_typed inputs before : forall c t v,
  typed c t v before -> rapid t v inputs ->
  typed (run c (typing inputs)) (fst (last inputs (t, v)))
        (snd (last inputs (t, v))) before.
Proof.
  induction inputs as [|[t' v'] rest IH]; intros c t v Hc Hr.
  - exact Hc.
  - destruct Hr as [_ [Hlt [Hv Hr]]].
    change (run c (typing ((t', v') :: rest)))
      with (run (step c (t', Change v')) (typing rest)).
    replace (last ((t', v') :: rest) (t, v)) with (last rest (t', v')).
    + apply IH; [|exact Hr]. now apply (step_typed c t v).
    + symmetry. apply last_cons.
Qed.

Lemma typed_searches c t v before now :
  typed c t v before ->
  apiCalls (advance now c) = before ++ searchesExpected t v now.
Proof.
  intros [Hq [Ht Hc]]. unfold searchesExpected.
  destruct (Z.ltb_spec now (t + quietPeriod)).
  - rewrite (advance_early c t v) by assumption. now rewrite app_nil_r.
  - rewrite (advance_due c t v) by assumption.
    destruct (Nat.ltb_spec (String.length v) 2).
    + rewrite handleSearch_short by assumption. simpl.
      now rewrite app_nil_r.
    + rewrite handleSearch_long by assumption. simpl. now rewrite Hc.
Qed.

(** C3 (amended).  The user types into the search section, in any state
    [c]: the input changes at the given times, each change less than the
    quiet period (300) after the previous one.  Counting from the first
    change, at every time before the last change is 300 old no search has
    been issued; from then on exactly one has been issued, for the final
    value, provided that value has at least 2 characters, and none
    otherwise.  (The statement holds for every such input sequence, hence
    for every prefix of one: no search is issued while typing continues.) *)
Theorem debounce_collapse c t1 v1 inputs now :
  v1 <> searchQuery c -> rapid t1 v1 inputs ->
  let before := apiCalls (advance t1 c) in
  let c' := run c (typing ((t1, v1) :: inputs)) in
  let final := last inputs (t1, v1) in
  ((now < fst final + 300)%Z -> apiCalls (advance now c') = before) /\
  ((fst final + 300 <= now)%Z -> (2 <= String.length (snd final))%nat ->
   apiCalls (advance now c') = before ++ [ArtistsSearch (snd final) 8]) /\
  ((fst final + 300 <= now)%Z -> (String.length (snd final) < 2)%nat ->
   apiCalls (advance now c') = before).
Proof.
  intros Hv Hr before c' final.
  assert (Hc : typed c' (fst final) (snd final) before).
  { apply (run_typed inputs before (step c (t1, Change v1)) t1 v1);
      [|exact Hr].
    unfold step. cbn [fst snd]. apply change_typed.
    now rewrite advance_searchQuery. }
  pose proof (typed_searches c' _ _ _ now Hc) as E.
  unfold searchesExpected, quietPeriod in E. rewrite E.
  repeat split.
  - intros H. destruct (Z.ltb_spec now (fst final + 300)); [|lia].
    apply app_nil_r.
  - intros H H2. destruct (Z.ltb_spec now (fst final + 300)); [lia|].
    destruct (Nat.ltb_spec (String.length (snd final)) 2); [lia|reflexivity].
  - intros H H2. destruct (Z.ltb_spec now (fst final + 300));
      [apply app_nil_r|].
    destruct (Nat.ltb_spec (String.length (snd final)) 2); [|lia].
    apply app_nil_r.
Qed.

(** C2 (amended).  An input change to a query shorter than 2 characters
    issues no remote call, at the change or later.  The displayed results
    are not cleared at the moment of the change: they stay as they are until
    the quiet period has elapsed, and are cleared when its timer runs. *)
Theorem short_query_cleared_after_quiet_period t c query :
  (String.length query < 2)%nat -> query <> searchQuery c ->
  let c1 := handle t (Change query) c in
  apiCalls c1 = apiCalls c /\
  searchResults c1 = searchResults c /\
  (forall now, (now < t + 300)%Z ->
     searchResults (advance now c1) = searchResults c /\
     apiCalls (advance now c1) = apiCalls c) /\
  (forall now, (t + 300 <= now)%Z ->
     searchResults (advance now c1) = [] /\
     apiCalls (advance now c1) = apiCalls c).
Proof.
  intros Hs Hq c1.
  assert (E : c1 = mkComponent query (searchResults c) (isSearching c)
                     (addingArtistId c) (Some (t + quietPeriod, query)%Z)
                     (pending c) (nextRequest c) (apiCalls c) (alerts c)
                     (consoleErrors c) (artistAdded c)).
  { subst c1. simpl. unfold setSearchQuery.
    destruct (String.eqb_spec query (searchQuery c)); [contradiction|].
    reflexivity. }
  assert (Ht : timer c1 = Some (t + quietPeriod, query)%Z) by now rewrite E.
  split; [now rewrite E|]. split; [now rewrite E|]. split; intros now Hn.
  - rewrite (advance_early c1 t query)
      by (assumption || (unfold quietPeriod; lia)).
    now rewrite E.
  - rewrite (advance_due c1 t query)
      by (assumption || (unfold quietPeriod; lia)).
    rewrite handleSearch_short by assumption. now rewrite E.
Qed.

End Debounce.

(** ** The search section on concrete traces *)

Section SearchExamples.
Import ArtistSearch.

(** C1 as stated fails: the response of the superseded search for "ab"
    returns last and replaces the results shown for the latest input. *)
Lemma stale_response_counterexample :
  apiCalls (run (mount 0) overtaken)
  = [ArtistsSearch "ab" 8; ArtistsSearch "abc" 8] /\
  searchQuery (run (mount 0) overtaken) = "abc" /\
  searchResults (run (mount 0) (firstn 3 overtaken)) = [abc] /\
  searchResults (run (mount 0) overtaken) = [abba] /\
  searchResults (run (mount 0) overtaken) <> [abc].
Proof. repeat split. discriminate. Qed.

Lemma search_response_committed_witness :
  let c := run (mount 0) (firstn 3 overtaken) in
  awaited 0 (pending c) = Some (ArtistsSearch "ab" 8) /\
  searchQuery c = "abc" /\
  searchResults (handle 800 (SearchSettles 0 (SearchFulfilled (Some [abba]))) c)
  = [abba].
Proof.
  intros c. split; [reflexivity|]. split; [reflexivity|].
  exact (proj1 (search_response_committed 800 c 0 "ab" 8 (Some [abba])
                  eq_refl)).
Defined.

Lemma search_failure_swallowed_witness :
  let c := run (mount 0) [(0, Change "ab"); (300, Change "abc")]%Z in
  awaited 0 (pending c) = Some (ArtistsSearch "ab" 8) /\
  isSearching c = true /\
  searchResults (handle 400 (SearchSettles 0 SearchRejected) c) = [] /\
  isSearching (handle 400 (SearchSettles 0 SearchRejected) c) = false.
Proof.
  intros c. split; [reflexivity|]. split; [reflexivity|].
  destruct (search_failure_swallowed 400 c 0 "ab" 8 eq_refl) as [H1 [H2 _]].
  split; [exact H1 | exact H2].
Defined.

Lemma add_failure_classified_witness :
  awaited 1 (pending following) = Some (ArtistsAdd "Abba" "m1") /\
  alerts (handle 600 (AddSettles 1 (AddRejected (Some 409%Z))) following)
  = [alreadyFollowed] /\
  alerts (handle 600 (AddSettles 1 (AddRejected (Some 500%Z))) following)
  = [addFailed] /\
  alerts (handle 600 (AddSettles 1 (AddRejected None)) following)
  = [addFailed].
Proof.
  split; [reflexivity|]. split; [|split].
  - apply (proj1 (add_failure_classified 600 following 1 "Abba" "m1"
                    (Some 409%Z) eq_refl)). reflexivity.
  - apply (proj1 (proj2 (add_failure_classified 600 following 1 "Abba" "m1"
                           (Some 500%Z) eq_refl))). discriminate.
  - apply (proj1 (proj2 (add_failure_classified 600 following 1 "Abba" "m1"
                           None eq_refl))). discriminate.
Defined.

Lemma add_failure_keeps_search_witness :
  awaited 1 (pending following) = Some (ArtistsAdd "Abba" "m1") /\
  searchQuery following = "ab" /\
  searchResults following = [abba] /\
  addingArtistId following = Some "m1" /\
  let c' := handle 600 (AddSettles 1 (AddRejected (Some 409%Z))) following in
  searchQuery c' = "ab" /\ searchResults c' = [abba] /\
  addingArtistId c' = None.
Proof.
  split; [reflexivity|]. split; [reflexivity|]. split; [reflexivity|].
  split; [reflexivity|].
  exact (proj1 (add_failure_keeps_search 600 following 1 "Abba" "m1" eq_refl)
           (Some 409%Z)).
Defined.

(** C2 as stated fails: the results of "ab" are still displayed when the
    input has become "a", and until the quiet period has elapsed. *)
Lemma short_query_counterexample :
  let c := run (mount 0)
             [ (0, Change "ab");
               (400, SearchSettles 0 (SearchFulfilled (Some [abba])));
               (500, Change "a") ]%Z in
  searchQuery c = "a" /\
  searchResults c = [abba] /\
  searchResults c <> [] /\
  searchResults (advance 799 c) = [abba] /\
  searchResults (advance 800 c) = [].
Proof. repeat split. discriminate. Qed.

Lemma short_query_cleared_witness :
  let c := run (mount 0)
             [ (0, Change "ab");
               (400, SearchSettles 0 (SearchFulfilled (Some [abba]))) ]%Z in
  (String.length "a" < 2)%nat /\ "a" <> searchQuery c /\
  searchResults (handle 500 (Change "a") c) = [abba] /\
  searchResults (advance 800 (handle 500 (Change "a") c)) = [] /\
  apiCalls (advance 800 (handle 500 (Change "a") c)) = [ArtistsSearch "ab" 8].
Proof.
  intros c.
  assert (H1 : (String.length "a" < 2)%nat) by (simpl; lia).
  assert (H2 : "a" <> searchQuery c) by discriminate.
  split; [exact H1|]. split; [exact H2|].
  destruct (short_query_cleared_after_quiet_period 500 c "a" H1 H2)
    as [_ [Hr [_ Hdue]]].
  split; [exact Hr|].
  apply (Hdue 800%Z). lia.
Defined.

(** The example of the specification: "a", "ab", "abc" typed within the
    quiet period of one another. *)
Lemma debounce_collapse_witness :
  let c := run (mount 0) (typing [(0, "a"); (100, "ab"); (200, "abc")]%Z) in
  rapid 0 "a" [(100, "ab"); (200, "abc")]%Z /\
  apiCalls (advance 499 c) = [] /\
  apiCalls (advance 500 c) = [ArtistsSearch "abc" 8].
Proof.
  intros c.
  assert (Hr : rapid 0 "a" [(100, "ab"); (200, "abc")]%Z).
  { simpl. unfold quietPeriod. repeat split; (lia || discriminate). }
  assert (Hv : "a" <> searchQuery (mount 0)) by discriminate.
  split; [exact Hr|]. split.
  - apply (proj1 (debounce_collapse (mount 0) 0 "a" _ 499 Hv Hr)).
    simpl. lia.
  - apply (proj1 (proj2 (debounce_collapse (mount 0) 0 "a" _ 500 Hv Hr)));
      simpl; lia.
Defined.

(** C3 as stated fails: when the final value is shorter than 2 characters
    no search is issued once the input is stable. *)
Lemma debounce_collapse_counterexample :
  let c := run (mount 0) (typing [(0, "ab"); (100, "a")]%Z) in
  rapid 0 "ab" [(100, "a")]%Z /\
  apiCalls (advance 399 c) = [] /\
  apiCalls (advance 400 c) = [] /\
  apiCalls (advance 1000 c) <> [ArtistsSearch "a" 8].
Proof.
  intros c. split.
  - simpl. unfold quietPeriod. repeat split; (lia || discriminate).
  - repeat split. discriminate.
Qed.

End SearchExamples.

(** ** The release sections as a whole *)

Section SortedInput.
Context {A : Type}.
Variable compareFn : A -> A -> option Z.
Variable key : A -> Z.

Lemma sort_sorted_id (l : list A) :
  JsArray.subtracts compareFn key l ->
  StronglySorted (JsArray.descending key) l ->
  JsArray.sort compareFn l = l.
Proof.
  intros Hs Hl. induction Hl as [|x l Hl IH Hx]; [reflexivity|].
  simpl. fold (JsArray.sort compareFn l). rewrite IH.
  - destruct l as [|y l']; [reflexivity|]. cbn [JsArray.insert].
    rewrite (sortCompare_subtracts compareFn key (x :: y :: l'))
      by (simpl; auto).
    inversion Hx as [|? ? Hy _]; subst. unfold JsArray.descending in Hy.
    destruct (Z.leb_spec (key y - key x) 0); [reflexivity | lia].
  - intros a b Ha Hb. apply Hs; simpl; auto.
Qed.

Lemma StronglySorted_filter (R : A -> A -> Prop) (f : A -> bool) (l : list A) :
  StronglySorted R l -> StronglySorted R (filter f l).
Proof.
  intros Hl. induction Hl as [|x l Hl IH Hx]; simpl; [constructor|].
  destruct (f x); [|exact IH]. constructor; [exact IH|].
  rewrite Forall_forall in *. intros y Hy. apply filter_In in Hy.
  apply Hx. exact (proj1 Hy).
Qed.

End SortedInput.

Section SectionFacts.
Import Releases Presented.
Variable Date_getTime : string -> option Z.

Lemma typeOrder_NoDup : NoDup typeOrder.
Proof.
  unfold typeOrder.
  repeat (constructor; [simpl; intuition discriminate|]). constructor.
Qed.

Lemma codeOrder_NoDup (rs : list Release) : NoDup (codeOrder rs).
Proof.
  unfold codeOrder. rewrite (app_assoc (filter _ [_; _; _; _; _])).
  rewrite <- filter_app.
  change (["Album"; "EP"; "Single"; "Compilation"; "Soundtrack"] ++ ["Other"])
    with typeOrder.
  apply NoDup_app.
  - apply NoDup_filter, typeOrder_NoDup.
  - apply NoDup_app.
    + apply (Permutation_NoDup (Permutation_sym (ascendingIndices_perm _))).
      apply NoDup_filter, firstOccurrences_NoDup.
    + apply NoDup_filter, firstOccurrences_NoDup.
    + intros k Hc Hd.
      apply (Permutation_in _ (ascendingIndices_perm _)) in Hc.
      apply filter_In in Hc, Hd. destruct Hc as [_ Hc], Hd as [_ Hd].
      rewrite Hc in Hd. discriminate.
  - intros k Hk Hcd. apply filter_In in Hk. destruct Hk as [Hk _].
    apply includes_In in Hk. apply in_app_or in Hcd.
    destruct Hcd as [Hc|Hd].
    + apply (Permutation_in _ (ascendingIndices_perm _)) in Hc.
      apply filter_In in Hc. destruct Hc as [_ Hc].
      apply arrayIndex_not_typeOrder in Hc. congruence.
    + apply filter_In in Hd. destruct Hd as [_ Hd]. rewrite Hk in Hd.
      now rewrite andb_false_r in Hd.
Qed.

Lemma codeOrder_perm (rs : list Release) :
  Permutation (codeOrder rs) (firstOccurrences (map typeOf rs)).
Proof.
  apply NoDup_Permutation.
  - apply codeOrder_NoDup.
  - apply firstOccurrences_NoDup.
  - intros k. rewrite codeOrder_In, firstOccurrences_In.
    reflexivity.
Qed.

Lemma flat_map_nil {B C : Type} (l : list B) :
  flat_map (fun _ : B => @nil C) l = [].
Proof. induction l; simpl; auto. Qed.

Lemma flat_map_pointwise {B C : Type} (f g : B -> list C) (l : list B) :
  (forall x, In x l -> Permutation (f x) (g x)) ->
  Permutation (flat_map f l) (flat_map g l).
Proof.
  induction l as [|x l IH]; intros H; simpl; [constructor|].
  apply Permutation_app; [apply H; simpl; auto|].
  apply IH. intros y Hy. apply H. simpl. auto.
Qed.

Lemma flat_map_same {B C : Type} (f g : B -> list C) (l : list B) :
  (forall x, In x l -> f x = g x) -> flat_map f l = flat_map g l.
Proof.
  induction l as [|x l IH]; intros H; simpl; [reflexivity|].
  rewrite (H x) by (simpl; auto). f_equal. apply IH. intros y Hy.
  apply H. simpl. auto.
Qed.

(** Filtering by each type of a duplicate-free list that covers the types
    of the releases splits the releases. *)
Lemma types_partition (ks : list string) (rs : list Release) :
  NoDup ks -> (forall r, In r rs -> In (typeOf r) ks) ->
  Permutation (flat_map (fun k => filter (hasType k) rs) ks) rs.
Proof.
  intros Hnd. induction rs as [|r rs IH]; intros Hin.
  - simpl. now rewrite flat_map_nil.
  - destruct (in_split (typeOf r) ks (Hin r (or_introl eq_refl)))
      as [k1 [k2 E]].
    assert (Hr : ~ In (typeOf r) (k1 ++ k2)).
    { rewrite E in Hnd. now apply NoDup_remove_2 in Hnd. }
    assert (Hother : forall k, In k (k1 ++ k2) ->
              filter (hasType k) (r :: rs) = filter (hasType k) rs).
    { intros k Hk. simpl. unfold hasType at 1.
      destruct (String.eqb_spec (typeOf r) k); [|reflexivity].
      subst k. contradiction. }
    specialize (IH (fun x Hx => Hin x (or_intror Hx))).
    rewrite E in IH |- *. rewrite flat_map_app in IH |- *. simpl flat_map.
    rewrite (flat_map_same _ (fun k => filter (hasType k) rs) k1)
      by (intros k Hk; apply Hother, in_or_app; auto).
    rewrite (flat_map_same _ (fun k => filter (hasType k) rs) k2)
      by (intros k Hk; apply Hother, in_or_app; auto).
    unfold hasType at 2. rewrite String.eqb_refl.
    fold (hasType (typeOf r)).
    eapply perm_trans; [apply Permutation_sym, Permutation_middle|].
    apply perm_skip. exact IH.
Qed.

(** X1.  When no type names a member of [Object.prototype], the cards of
    the sections, read in display order, are a rearrangement of the releases
    received: no release is dropped and none is shown twice, and the counts
    in the section headers add up to the number of releases. *)
Theorem sections_partition (releases : list Release) :
  plainTypes releases ->
  exists g,
    groupReleasesByType Date_getTime releases = Some g /\
    Permutation (flat_map (bucketOf g) (sortedTypes g)) releases /\
    list_sum (map (fun k => length (bucketOf g k)) (sortedTypes g))
    = length releases.
Proof.
  intros H. exists (grouped Date_getTime releases).
  assert (Hp : Permutation
                 (flat_map (bucketOf (grouped Date_getTime releases))
                    (sortedTypes (grouped Date_getTime releases)))
                 releases).
  { rewrite sortedTypes_grouped.
    eapply perm_trans;
      [apply Permutation_flat_map, (codeOrder_perm releases)|].
    eapply perm_trans; [|apply (types_partition
                                  (firstOccurrences (map typeOf releases)))].
    - apply flat_map_pointwise. intros k _. rewrite bucketOf_grouped.
      apply sort_perm.
    - apply firstOccurrences_NoDup.
    - intros r Hr. apply firstOccurrences_In. now apply in_map. }
  split; [now apply groupReleasesByType_grouped|]. split; [exact Hp|].
  rewrite <- (Permutation_length Hp).
  generalize (sortedTypes (grouped Date_getTime releases)).
  intros ks. induction ks as [|k ks IH]; simpl; [reflexivity|].
  now rewrite length_app, IH.
Qed.

(** X2.  When no type names a member of [Object.prototype], the sections
    displayed have pairwise different types (the React keys are unique) and
    none of them is empty. *)
Theorem sections_distinct_nonempty (releases : list Release) :
  plainTypes releases ->
  exists g,
    groupReleasesByType Date_getTime releases = Some g /\
    NoDup (sortedTypes g) /\
    forall k, In k (sortedTypes g) -> bucketOf g k <> [].
Proof.
  intros H. exists (grouped Date_getTime releases).
  split; [now apply groupReleasesByType_grouped|].
  rewrite sortedTypes_grouped. split; [apply codeOrder_NoDup|].
  intros k Hk E. apply codeOrder_In in Hk.
  apply in_map_iff in Hk. destruct Hk as [r [Hr Hin]].
  assert (Hb : In r (bucketOf (grouped Date_getTime releases) k)).
  { rewrite bucketOf_grouped. apply sort_In, filter_In. split; [exact Hin|].
    unfold hasType. rewrite Hr. apply String.eqb_refl. }
  rewrite E in Hb. exact Hb.
Qed.

(** X3.  [ReleasesView] fails to render exactly when some release has a
    type that names a member of [Object.prototype]: one such release hides
    all the others. *)
Theorem render_error_iff (releases : list Release) :
  ReleasesView Date_getTime releases = RenderError <->
  exists r, In r releases /\ JsObject.inherited (typeOf r) = true.
Proof.
  destruct (existsb (fun r => JsObject.inherited (typeOf r)) releases) eqn:E.
  - apply existsb_exists in E. split; [intros _; exact E|]. intros _.
    destruct releases as [|r0 rs]; [destruct E as [r [[] _]]|].
    unfold ReleasesView.
    destruct (groupReleasesByType Date_getTime (r0 :: rs)) eqn:Eg;
      [|reflexivity].
    exfalso. destruct E as [r [Hr Hi]].
    assert (Hp : plainTypes (r0 :: rs)).
    { apply (groupReleasesByType_plainTypes Date_getTime). congruence. }
    rewrite (Hp r Hr) in Hi. discriminate.
  - assert (Hp : plainTypes releases).
    { intros r Hr. destruct (JsObject.inherited (typeOf r)) eqn:Ei;
        [|reflexivity].
      assert (Hex : existsb (fun r => JsObject.inherited (typeOf r)) releases
                    = true) by (apply existsb_exists; eauto).
      congruence. }
    split.
    + unfold ReleasesView. destruct releases; [discriminate|].
      rewrite (groupReleasesByType_grouped Date_getTime) by assumption.
      discriminate.
    + intros [r [Hr Hi]]. rewrite (Hp r Hr) in Hi. discriminate.
Qed.

(** X4.  When the releases arrive newest first, with dates that all parse
    and no type naming a member of [Object.prototype], every bucket is the
    releases of its type in the order received: sorting changes nothing. *)
Theorem sorted_input_kept (releases : list Release) :
  plainTypes releases ->
  validDates Date_getTime releases ->
  StronglySorted (newestFirst Date_getTime) releases ->
  exists g,
    groupReleasesByType Date_getTime releases = Some g /\
    forall k, bucketOf g k = filter (hasType k) releases.
Proof.
  intros Hp Hv Hs. exists (grouped Date_getTime releases).
  split; [now apply groupReleasesByType_grouped|].
  intros k. rewrite bucketOf_grouped.
  apply (sort_sorted_id _ (timeOf Date_getTime)).
  - intros a b Ha Hb. apply filter_In in Ha, Hb.
    destruct Ha as [Ha _], Hb as [Hb _]. apply Hv in Ha, Hb.
    unfold byDateDesc, timeOf.
    destruct (Date_getTime (release_date a)); [|congruence].
    destruct (Date_getTime (release_date b)); [|congruence].
    reflexivity.
  - apply StronglySorted_filter. exact Hs.
Qed.

End SectionFacts.

(** ** App: navigation and refresh *)

Section AppFacts.
Import App.
Implicit Types (s : State) (now : Z) (request : nat).

Lemma MainContent_connected (view : string) :
  Gate.MainContent view (Some true) <> Gate.ConnectionHelp.
Proof.
  unfold Gate.MainContent.
  repeat match goal with
         | |- context [String.eqb ?a ?b] => destruct (String.eqb a b)
         end; discriminate.
Qed.

(** X5.  The header says "Connected" exactly when the content area shows
    something else than the connection guidance, whatever view is
    selected. *)
Theorem indicator_matches_content (view : string) (apiConnected : option bool) :
  connectionStatus apiConnected = Connected <->
  Gate.MainContent view apiConnected <> Gate.ConnectionHelp.
Proof.
  destruct apiConnected as [[|]|]; simpl; split; intros H;
    try discriminate; try reflexivity; try (now contradiction H).
  apply MainContent_connected.
Qed.

Lemma advance_currentView now s : currentView (advance now s) = currentView s.
Proof. unfold advance. now destruct (existsb _ (timers s)). Qed.

Lemma handle_currentView now e s :
  In (currentView s) (map id navigation) ->
  In (currentView (handle now e s)) (map id navigation).
Proof.
  intros H. destruct e as [index| | | |request ok]; cbn [handle];
    try exact H.
  - destruct (nth_error navigation index) as [item|] eqn:E; [|exact H].
    change (currentView (handleViewChange (id item) s)) with (id item).
    apply in_map. now apply (nth_error_In _ index).
  - now destruct (isRefreshing s).
  - destruct (awaited request (pending s)) as [[| |]|]; try exact H.
    unfold handleRefresh_invalidated. now destruct ok.
Qed.

Lemma run_currentView trace : forall s,
  In (currentView s) (map id navigation) ->
  In (currentView (run s trace)) (map id navigation).
Proof.
  induction trace as [|[t e] trace IH]; intros s H; [exact H|].
  apply IH. unfold step. apply handle_currentView.
  now rewrite advance_currentView.
Qed.

(** X6.  Whatever the user does, the selected view is always one of the
    navigation entries: the header shows that entry's name, never the
    fall-back title, and when the connection is up the content area never
    shows the "Coming soon" view. *)
Theorem selected_view_is_navigation_entry (trace : list (Z * Event)) :
  let s := run mount trace in
  exists item,
    In item navigation /\
    currentNavItem (currentView s) = Some item /\
    id item = currentView s /\
    headerTitle (currentView s) = name item /\
    Gate.MainContent (currentView s) (Some true) <> Gate.ComingSoonView.
Proof.
  intros s.
  assert (H : In (currentView s) (map id navigation)).
  { apply run_currentView. simpl. auto. }
  simpl in H.
  destruct H as [H|[H|[H|[H|[H|[]]]]]]; rewrite <- H;
    (eexists; (split; [|split; [reflexivity|]]);
     [simpl; auto 6 | repeat split; discriminate]).
Qed.

Lemma awaited_In request (l : list (nat * Awaited)) (a : Awaited) :
  awaited request l = Some a -> In (request, a) l.
Proof.
  induction l as [|[r b] l IH]; simpl; [discriminate|].
  destruct (Nat.eqb_spec r request); intros H.
  - left. congruence.
  - right. auto.
Qed.

Lemma refresh_settled request s (a : Awaited) :
  awaited request (pending s) = Some a -> a <> StartupHealth ->
  refreshesInProgress s <= 1 ->
  refreshesInProgress (settled request s) = 0 /\ timers s = [].
Proof.
  intros Ha Hne Hle. apply awaited_In in Ha.
  unfold refreshesInProgress in *. cbn [pending timers settled].
  rewrite filter_filter.
  rewrite (filter_ext _ (fun p => match snd p with
                                  | StartupHealth => false
                                  | _ => true
                                  end && negb (Nat.eqb (fst p) request)))
    by (intros p; apply andb_comm).
  rewrite <- filter_filter.
  set (rp := filter (fun p => match snd p with
                              | StartupHealth => false
                              | _ => true
                              end) (pending s)) in *.
  assert (Hin : In (request, a) rp).
  { apply filter_In. split; [exact Ha|]. now destruct a. }
  destruct rp as [|p [|q rp]]; [contradiction| |simpl in Hle; lia].
  destruct Hin as [->|[]]. simpl in *. rewrite Nat.eqb_refl. simpl.
  destruct (timers s); [auto | simpl in Hle; lia].
Qed.

Lemma startup_settled request s :
  refreshesInProgress (settled request s) <= refreshesInProgress s.
Proof.
  unfold refreshesInProgress. cbn [pending timers settled].
  rewrite filter_filter.
  rewrite (filter_ext _ (fun p => match snd p with
                                  | StartupHealth => false
                                  | _ => true
                                  end && negb (Nat.eqb (fst p) request)))
    by (intros p; apply andb_comm).
  rewrite <- filter_filter. apply Nat.add_le_mono_r.
  apply filter_length_le.
Qed.

Lemma refreshesInProgress_await (call : Call) (a : Awaited) s :
  a <> StartupHealth ->
  refreshesInProgress (await call a s) = S (refreshesInProgress s).
Proof.
  intros Hne. unfold refreshesInProgress. cbn [pending timers await].
  rewrite filter_app, length_app. simpl. destruct a; [contradiction| |];
    simpl; lia.
Qed.

Lemma serialised_handle now e s :
  refreshesInProgress s <= 1 ->
  (isRefreshing s = false -> refreshesInProgress s = 0) ->
  refreshesInProgress (handle now e s) <= 1 /\
  (isRefreshing (handle now e s) = false ->
   refreshesInProgress (handle now e s) = 0).
Proof.
  intros Hle Hidle.
  destruct e as [index| | | |request ok]; cbn [handle].
  - destruct (nth_error navigation index); split; assumption.
  - split; assumption.
  - split; assumption.
  - destruct (isRefreshing s) eqn:E; [split; [assumption | congruence]|].
    unfold handleRefresh. rewrite refreshesInProgress_await by discriminate.
    change (refreshesInProgress (setIsRefreshing true s))
      with (refreshesInProgress s).
    rewrite (Hidle eq_refl). split; [lia | discriminate].
  - destruct (awaited request (pending s)) as [[| |]|] eqn:Ea;
      [| | |split; assumption].
    + change (refreshesInProgress (setApiConnected ok (settled request s)))
        with (refreshesInProgress (settled request s)).
      change (isRefreshing (setApiConnected ok (settled request s)))
        with (isRefreshing s).
      pose proof (startup_settled request s). split; [lia|].
      intros H'. specialize (Hidle H'). lia.
    + destruct (refresh_settled request s _ Ea) as [H0 Ht];
        [discriminate | exact Hle |].
      assert (Hr : isRefreshing s = true).
      { destruct (isRefreshing s); [reflexivity|].
        specialize (Hidle eq_refl). apply awaited_In in Ea.
        unfold refreshesInProgress in Hidle.
        assert (Hin : In (request, RefreshInvalidate)
                        (filter (fun p => match snd p with
                                          | StartupHealth => false
                                          | _ => true
                                          end) (pending s)))
          by (apply filter_In; auto).
        destruct (filter _ (pending s)); [contradiction|].
        simpl in Hidle. lia. }
      unfold handleRefresh_invalidated. destruct ok.
      * rewrite refreshesInProgress_await by discriminate. rewrite H0.
        split; [lia|]. cbn [isRefreshing await settled]. congruence.
      * unfold refreshesInProgress in *.
        cbn [pending timers setTimeout setApiConnected settled
             isRefreshing] in *.
        rewrite Ht, length_app in *. simpl in *. split; [lia|]. congruence.
    + destruct (refresh_settled request s _ Ea) as [H0 Ht];
        [discriminate | exact Hle |].
      assert (Hr : isRefreshing s = true).
      { destruct (isRefreshing s); [reflexivity|].
        specialize (Hidle eq_refl). apply awaited_In in Ea.
        unfold refreshesInProgress in Hidle.
        assert (Hin : In (request, RefreshHealth)
                        (filter (fun p => match snd p with
                                          | StartupHealth => false
                                          | _ => true
                                          end) (pending s)))
          by (apply filter_In; auto).
        destruct (filter _ (pending s)); [contradiction|].
        simpl in Hidle. lia. }
      unfold handleRefresh_probed, refreshesInProgress in *.
      cbn [pending timers setTimeout setApiConnected settled
           isRefreshing] in *.
      rewrite Ht, length_app in *. simpl in *. split; [lia|]. congruence.
Qed.

Lemma serialised_advance now s :
  refreshesInProgress s <= 1 ->
  (isRefreshing s = false -> refreshesInProgress s = 0) ->
  refreshesInProgress (advance now s) <= 1 /\
  (isRefreshing (advance now s) = false ->
   refreshesInProgress (advance now s) = 0).
Proof.
  intros Hle Hidle. unfold advance.
  destruct (existsb (fun due => (due <=? now)%Z) (timers s)) eqn:E; [|auto].
  unfold refreshesInProgress in *. cbn [pending timers isRefreshing].
  destruct (timers s) as [|due [|due' l]]; [discriminate| |simpl in Hle; lia].
  simpl in E. rewrite orb_false_r in E. simpl. rewrite E. simpl in *.
  split; [lia|]. intros _. lia.
Qed.

(** X7.  Refreshes never overlap: whatever the user does, at most one call
    of [handleRefresh] is between its start and the timer that ends it, and
    whenever the refresh button is enabled ([isRefreshing] is [false]) none
    is. *)
Theorem refresh_serialised (trace : list (Z * Event)) :
  refreshesInProgress (run mount trace) <= 1 /\
  (isRefreshing (run mount trace) = false ->
   refreshesInProgress (run mount trace) = 0).
Proof.
  assert (H : forall s,
             refreshesInProgress s <= 1 /\
             (isRefreshing s = false -> refreshesInProgress s = 0) ->
             refreshesInProgress (run s trace) <= 1 /\
             (isRefreshing (run s trace) = false ->
              refreshesInProgress (run s trace) = 0)).
  { induction trace as [|[t e] trace IH]; intros s Hs; [exact Hs|].
    apply IH. unfold step. cbn [fst snd].
    destruct Hs as [H1 H2].
    destruct (serialised_advance t s H1 H2) as [H3 H4].
    now apply serialised_handle. }
  apply H. change (refreshesInProgress mount) with 0.
  split; [lia | reflexivity].
Qed.

(** X8.  When the health check of a refresh settles, its outcome decides
    the gate: after a failure the content area shows the connection guidance
    for every view and the header says "Disconnected", even if the API was
    connected before; after a success it shows the selected view.  No call is
    made, and the refresh button is enabled again 1000 later. *)
Theorem refresh_probe_decides_gate now s request ok :
  awaited request (pending s) = Some RefreshHealth ->
  let s' := handle now (Settles request ok) s in
  (ok = false ->
   (forall view, Gate.MainContent view (apiConnected s')
                 = Gate.ConnectionHelp) /\
   connectionStatus (apiConnected s') = Disconnected) /\
  (ok = true ->
   content s' = Gate.MainContent (currentView s) (Some true) /\
   content s' <> Gate.ConnectionHelp) /\
  calls s' = calls s /\
  (forall t, (now + 1000 <= t)%Z -> isRefreshing (advance t s') = false).
Proof.
  intros H s'. subst s'. cbn [handle]. rewrite H.
  split; [|split; [|split]].
  - intros ->. split; reflexivity.
  - intros ->. split; [reflexivity | apply MainContent_connected].
  - reflexivity.
  - intros t Ht. unfold advance, handleRefresh_probed.
    cbn [timers setTimeout setApiConnected settled].
    rewrite existsb_app. simpl.
    destruct (Z.leb_spec (now + 1000) t); [|lia].
    now rewrite orb_true_r.
Qed.


End AppFacts.

(** ** The search section: what holds along every trace *)

Section SearchInvariants.
Import ArtistSearch.
Implicit Types (c : Component) (now t : Z) (request : nat).

Lemma handleSearch_keeps query c :
  searchQuery (handleSearch query c) = searchQuery c /\
  timer (handleSearch query c) = timer c.
Proof.
  unfold handleSearch. now destruct (String.length query <? 2)%nat.
Qed.

Lemma handleSearch_calls query c :
  (String.length query < 2)%nat /\
  apiCalls (handleSearch query c) = apiCalls c \/
  (2 <= String.length query)%nat /\
  apiCalls (handleSearch query c) = apiCalls c ++ [ArtistsSearch query 8].
Proof.
  unfold handleSearch.
  destruct (Nat.ltb_spec (String.length query) 2); [left | right]; auto.
Qed.

Lemma setSearchQuery_timerCurrent now v c :
  timerCurrent c -> timerCurrent (setSearchQuery now v c).
Proof.
  intros H. unfold setSearchQuery.
  destruct (String.eqb v (searchQuery c)); [exact H|].
  intros due query E. simpl in *. congruence.
Qed.

Lemma advance_timerCurrent now c : timerCurrent c -> timerCurrent (advance now c).
Proof.
  intros H. unfold advance. destruct (timer c) as [[due query]|] eqn:E;
    [|exact H].
  destruct (due <=? now)%Z; [|exact H].
  intros d q Ht. destruct (handleSearch_keeps query (clearTimer c)) as [_ Hk].
  rewrite Hk in Ht. discriminate.
Qed.

Lemma handle_timerCurrent now e c : timerCurrent c -> timerCurrent (handle now e c).
Proof.
  intros H. destruct e as [v|index|request s|request s]; cbn [handle].
  - now apply setSearchQuery_timerCurrent.
  - destruct (nth_error (searchResults c) index) as [a|]; [|exact H].
    destruct (followDisabled a c); exact H.
  - destruct (awaited request (pending c)) as [[q l|n m]|]; try exact H.
    destruct s as [[a|]|]; exact H.
  - destruct (awaited request (pending c)) as [[q l|n m]|]; try exact H.
    destruct s as [|status].
    + unfold handleAddArtist_resume.
      pose proof (setSearchQuery_timerCurrent now "" (settled request c) H)
        as H'.
      exact H'.
    + unfold handleAddArtist_resume. destruct (isConflict status); exact H.
Qed.

Lemma run_timerCurrent trace : forall c,
  timerCurrent c -> timerCurrent (run c trace).
Proof.
  induction trace as [|[t e] trace IH]; intros c H; [exact H|].
  apply IH. unfold step. now apply handle_timerCurrent, advance_timerCurrent.
Qed.

Lemma mount_timerCurrent t0 : timerCurrent (mount t0).
Proof. intros due query E. simpl in E. now injection E as _ <-. Qed.

(** X10.  Along every trace of the section, a pending debounce timer has
    captured the value the input currently holds, so the passing of time
    either issues nothing or issues one search, for the current value of the
    input. *)
Theorem search_is_for_current_input t0 (trace : list (Z * Event)) now :
  let c := run (mount t0) trace in
  timerCurrent c /\
  (apiCalls (advance now c) = apiCalls c \/
   apiCalls (advance now c) = apiCalls c ++ [ArtistsSearch (searchQuery c) 8]).
Proof.
  intros c.
  assert (H : timerCurrent c) by apply run_timerCurrent, mount_timerCurrent.
  split; [exact H|]. unfold advance.
  destruct (timer c) as [[due query]|] eqn:E; [|now left].
  destruct (due <=? now)%Z; [|now left].
  rewrite <- (H due query E).
  destruct (handleSearch_calls query (clearTimer c)) as [[_ Hc]|[_ Hc]];
    [left | right]; exact Hc.
Qed.

Lemma handle_calls now e c :
  apiCalls (handle now e c) = apiCalls c \/
  exists n m, apiCalls (handle now e c) = apiCalls c ++ [ArtistsAdd n m].
Proof.
  destruct e as [v|index|request s|request s]; cbn [handle].
  - left. unfold setSearchQuery. now destruct (String.eqb v (searchQuery c)).
  - destruct (nth_error (searchResults c) index) as [a|]; [|now left].
    destruct (followDisabled a c); [now left|]. right. now eexists _, _.
  - left. destruct (awaited request (pending c)) as [[q l|n m]|];
      try reflexivity.
    destruct s as [[a|]|]; reflexivity.
  - left. destruct (awaited request (pending c)) as [[q l|n m]|];
      try reflexivity.
    destruct s as [|status]; unfold handleAddArtist_resume.
    + cbn [apiCalls setAddingArtistId onArtistAdded setSearchResults].
      unfold setSearchQuery.
      now destruct (String.eqb "" (searchQuery (settled request c))).
    + now destruct (isConflict status).
Qed.

(** X11.  Typing and the settling of requests never call the API by
    themselves: only the debounce timer and a click on a follow button
    do. *)
Theorem only_timer_and_follow_call now c :
  (forall v, apiCalls (handle now (Change v) c) = apiCalls c) /\
  (forall request s,
     apiCalls (handle now (SearchSettles request s) c) = apiCalls c) /\
  (forall request s,
     apiCalls (handle now (AddSettles request s) c) = apiCalls c).
Proof.
  repeat split; intros.
  - cbn [handle]. unfold setSearchQuery.
    now destruct (String.eqb v (searchQuery c)).
  - cbn [handle]. destruct (awaited request (pending c)) as [[q l|n m]|];
      try reflexivity.
    destruct s as [[a|]|]; reflexivity.
  - cbn [handle]. destruct (awaited request (pending c)) as [[q l|n m]|];
      try reflexivity.
    destruct s as [|status]; unfold handleAddArtist_resume.
    + cbn [apiCalls setAddingArtistId onArtistAdded setSearchResults].
      unfold setSearchQuery.
      now destruct (String.eqb "" (searchQuery (settled request c))).
    + now destruct (isConflict status).
Qed.

Lemma guarded_step c te :
  (forall q l, In (ArtistsSearch q l) (apiCalls c) ->
               (2 <= String.length q)%nat /\ l = 8%Z) ->
  forall q l, In (ArtistsSearch q l) (apiCalls (step c te)) ->
              (2 <= String.length q)%nat /\ l = 8%Z.
Proof.
  intros H q l Hin. unfold step in Hin.
  assert (Ha : forall q l, In (ArtistsSearch q l)
                             (apiCalls (advance (fst te) c)) ->
                           (2 <= String.length q)%nat /\ l = 8%Z).
  { clear q l Hin. intros q l Hin. unfold advance in Hin.
    destruct (timer c) as [[due query]|]; [|auto].
    destruct (due <=? fst te)%Z; [|auto].
    destruct (handleSearch_calls query (clearTimer c)) as [[_ Hc]|[Hl Hc]];
      rewrite Hc in Hin; [auto|].
    apply in_app_or in Hin. destruct Hin as [Hin|[Hin|[]]]; [auto|].
    injection Hin as <- <-. auto. }
  destruct (handle_calls (fst te) (snd te) (advance (fst te) c))
    as [Hc|[n [m Hc]]]; rewrite Hc in Hin; [auto|].
  apply in_app_or in Hin. destruct Hin as [Hin|[Hin|[]]]; [auto|discriminate].
Qed.

(** X12.  Along every trace of the section, every search sent to the API
    has a query of at least 2 characters and asks for 8 results. *)
Theorem every_search_is_guarded t0 (trace : list (Z * Event)) q l :
  In (ArtistsSearch q l) (apiCalls (run (mount t0) trace)) ->
  (2 <= String.length q)%nat /\ l = 8%Z.
Proof.
  revert q l.
  assert (H : forall c,
             (forall q l, In (ArtistsSearch q l) (apiCalls c) ->
                          (2 <= String.length q)%nat /\ l = 8%Z) ->
             forall q l, In (ArtistsSearch q l) (apiCalls (run c trace)) ->
                         (2 <= String.length q)%nat /\ l = 8%Z).
  { induction trace as [|te trace IH]; intros c Hc; [exact Hc|].
    apply IH. now apply guarded_step. }
  apply H. intros q l [].
Qed.

End SearchInvariants.

(** ** The search section: following *)

Section Following.
Import ArtistSearch.
Implicit Types (c : Component) (now t : Z) (request : nat) (a b : Artist).

Lemma follow_enabled now index a c :
  nth_error (searchResults c) index = Some a ->
  followDisabled a c = false ->
  handle now (Follow index) c = handleAddArtist a c.
Proof. intros Hn Hd. cbn [handle]. now rewrite Hn, Hd. Qed.

Lemma follow_disabled now index a c :
  nth_error (searchResults c) index = Some a ->
  followDisabled a c = true ->
  handle now (Follow index) c = c.
Proof. intros Hn Hd. cbn [handle]. now rewrite Hn, Hd. Qed.

Lemma followDisabled_after a b c :
  followDisabled b (handleAddArtist a c) =
  is_followed b || String.eqb (mbid a) (mbid b).
Proof. reflexivity. Qed.

(** X13.  A click on the follow button of a displayed artist that is
    neither followed nor being added sends one create request with the
    artist's name and identifier and marks the artist as being added; a
    second click on the same button then does nothing.  A click on a
    disabled button does nothing. *)
Theorem follow_click_once now index a c :
  nth_error (searchResults c) index = Some a ->
  (followDisabled a c = true -> handle now (Follow index) c = c) /\
  (followDisabled a c = false ->
   let c' := handle now (Follow index) c in
   apiCalls c' = apiCalls c ++ [ArtistsAdd (name a) (mbid a)] /\
   addingArtistId c' = Some (mbid a) /\
   forall later, handle later (Follow index) c' = c').
Proof.
  intros Hn. split; intros Hd.
  - now apply (follow_disabled now index a).
  - intros c'. subst c'. rewrite (follow_enabled now index a c Hn Hd).
    split; [reflexivity|]. split; [reflexivity|]. intros later.
    apply (follow_disabled later index a); [exact Hn|].
    rewrite followDisabled_after, String.eqb_refl. apply orb_true_r.
Qed.

(** X14.  The in-flight marker holds only the artist clicked last.  After a
    click on artist [a], a click on another artist [b] enables the button of
    [a] again, and a further click on it sends a second create request for
    [a] while the first one is still awaited. *)
Theorem follow_marker_is_last_click_only now i j a b c :
  nth_error (searchResults c) i = Some a ->
  nth_error (searchResults c) j = Some b ->
  mbid a <> mbid b ->
  followDisabled a c = false ->
  is_followed b = false ->
  let c' := handle now (Follow i)
              (handle now (Follow j) (handle now (Follow i) c)) in
  apiCalls c' =
  apiCalls c ++ [ArtistsAdd (name a) (mbid a); ArtistsAdd (name b) (mbid b);
                 ArtistsAdd (name a) (mbid a)] /\
  pending c' =
  pending c ++ [(nextRequest c, ArtistsAdd (name a) (mbid a));
                (S (nextRequest c), ArtistsAdd (name b) (mbid b));
                (S (S (nextRequest c)), ArtistsAdd (name a) (mbid a))].
Proof.
  intros Hi Hj Hne Ha Hb c'. subst c'.
  assert (Hfa : is_followed a = false).
  { unfold followDisabled in Ha. now apply orb_false_elim in Ha. }
  rewrite (follow_enabled now i a c Hi Ha).
  rewrite (follow_enabled now j b (handleAddArtist a c) Hj).
  - rewrite (follow_enabled now i a (handleAddArtist b (handleAddArtist a c)) Hi).
    + simpl. rewrite <- !app_assoc. split; reflexivity.
    + rewrite followDisabled_after, Hfa. simpl.
      apply String.eqb_neq. congruence.
  - rewrite followDisabled_after, Hb. simpl. now apply String.eqb_neq.
Qed.

Lemma awaited_settled request other c :
  other <> request ->
  awaited other (pending (settled request c)) = awaited other (pending c).
Proof.
  intros Hne. cbn [pending settled].
  induction (pending c) as [|[r call] l IH]; [reflexivity|].
  simpl. destruct (Nat.eqb_spec r request); simpl.
  - destruct (Nat.eqb_spec r other); [congruence | exact IH].
  - destruct (Nat.eqb_spec r other); [reflexivity | exact IH].
Qed.

(** X15.  The loading flag is not a count: when two searches are awaited
    and one of them settles, the flag is cleared although the other is still
    awaited. *)
Theorem loading_flag_cleared_by_first_response
    now c r1 r2 q1 l1 q2 l2 s :
  awaited r1 (pending c) = Some (ArtistsSearch q1 l1) ->
  awaited r2 (pending c) = Some (ArtistsSearch q2 l2) ->
  r1 <> r2 ->
  let c' := handle now (SearchSettles r1 s) c in
  isSearching c' = false /\
  awaited r2 (pending c') = Some (ArtistsSearch q2 l2).
Proof.
  intros H1 H2 Hne c'. subst c'. cbn [handle]. rewrite H1.
  split; [now destruct s as [[a|]|]|].
  rewrite <- H2, <- (awaited_settled r1 r2 c) by congruence.
  now destruct s as [[a|]|].
Qed.

Lemma advance_short_timer now c :
  (forall due query, timer c = Some (due, query) ->
                     (String.length query < 2)%nat) ->
  apiCalls (advance now c) = apiCalls c /\
  (searchResults c = [] -> searchResults (advance now c) = []).
Proof.
  intros H. unfold advance. destruct (timer c) as [[due query]|] eqn:E;
    [|auto].
  destruct (due <=? now)%Z; [|auto].
  specialize (H due query eq_refl). unfold handleSearch.
  destruct (Nat.ltb_spec (String.length query) 2); [auto | lia].
Qed.

(** X16.  A follow that succeeds notifies the parent once, alerts nothing,
    and leaves no search to come: whatever was typed before, the passing of
    time afterwards issues no search and the result list stays empty.  A
    follow that fails does not notify the parent. *)
Theorem add_success_notifies_and_cancels_search now c request n m :
  awaited request (pending c) = Some (ArtistsAdd n m) ->
  timerCurrent c ->
  let c' := handle now (AddSettles request AddFulfilled) c in
  artistAdded c' = S (artistAdded c) /\
  alerts c' = alerts c /\
  (forall later,
     apiCalls (advance later c') = apiCalls c /\
     searchResults (advance later c') = []) /\
  (forall status,
     artistAdded (handle now (AddSettles request (AddRejected status)) c)
     = artistAdded c).
Proof.
  intros Ha Ht c'. subst c'. cbn [handle]. rewrite Ha.
  unfold handleAddArtist_resume.
  assert (Hq : searchQuery (setSearchQuery now "" (settled request c)) = "").
  { unfold setSearchQuery.
    destruct (String.eqb_spec "" (searchQuery (settled request c)));
      [congruence | reflexivity]. }
  assert (Hc : apiCalls (setSearchQuery now "" (settled request c))
               = apiCalls c).
  { unfold setSearchQuery.
    now destruct (String.eqb "" (searchQuery (settled request c))). }
  assert (Hcur : timerCurrent (setSearchQuery now "" (settled request c))).
  { apply setSearchQuery_timerCurrent. exact Ht. }
  split; [|split; [|split]].
  - cbn [artistAdded setAddingArtistId onArtistAdded setSearchResults].
    unfold setSearchQuery.
    now destruct (String.eqb "" (searchQuery (settled request c))).
  - cbn [alerts setAddingArtistId onArtistAdded setSearchResults].
    unfold setSearchQuery.
    now destruct (String.eqb "" (searchQuery (settled request c))).
  - intros later.
    set (c1 := setSearchQuery now "" (settled request c)) in *.
    destruct (advance_short_timer later
                (setAddingArtistId None
                   (onArtistAdded (setSearchResults [] c1)))) as [H1 H2].
    + intros due query E. cbn [timer setAddingArtistId onArtistAdded
                                setSearchResults] in E.
      rewrite (Hcur due query E), Hq. simpl. lia.
    + split; [rewrite H1; exact Hc | now apply H2].
  - intros status. now destruct (isConflict status).
Qed.

(** X17.  When the input changes to a value of at least 2 characters while
    no result is displayed and no search is loading, the "No artists found"
    panel is displayed at once and throughout the quiet period, although no
    search has been issued for that value. *)
Theorem no_results_shown_before_search t c query :
  (2 <= String.length query)%nat ->
  query <> searchQuery c ->
  searchResults c = [] ->
  isSearching c = false ->
  let c1 := handle t (Change query) c in
  noResultsShown c1 = true /\
  forall now, (now < t + 300)%Z ->
    noResultsShown (advance now c1) = true /\
    apiCalls (advance now c1) = apiCalls c.
Proof.
  intros Hl Hq Hr Hs c1. subst c1. cbn [handle]. unfold setSearchQuery.
  destruct (String.eqb_spec query (searchQuery c)); [contradiction|].
  assert (Hshown : noResultsShown
                     (mkComponent query (searchResults c) (isSearching c)
                        (addingArtistId c) (Some (t + quietPeriod, query)%Z)
                        (pending c) (nextRequest c) (apiCalls c) (alerts c)
                        (consoleErrors c) (artistAdded c)) = true).
  { unfold noResultsShown. cbn [searchQuery searchResults isSearching].
    rewrite Hr, Hs. apply Nat.leb_le in Hl. rewrite Hl. reflexivity. }
  split; [exact Hshown|]. intros now Hn. unfold advance.
  cbn [timer]. unfold quietPeriod.
  destruct (Z.leb_spec (t + 300) now); [lia|]. split; [exact Hshown|].
  reflexivity.
Qed.

End Following.

(** ** The properties above on concrete inputs *)

Section MoreExamples.

Lemma sections_partition_witness :
  let releases :=
    [release "1" "Single" "2024-01-01"; release "2" "Live" "2023-01-01";
     release "3" "Album" "2022-06-01"; release "4" "Single" "2023-03-01"] in
  Presented.plainTypes releases /\
  exists g,
    Releases.groupReleasesByType IsoDate.getTime releases = Some g /\
    Permutation
      (flat_map (Releases.bucketOf g) (Releases.sortedTypes g)) releases /\
    list_sum (map (fun k => length (Releases.bucketOf g k))
                (Releases.sortedTypes g)) = 4.
Proof.
  intros releases.
  assert (H : Presented.plainTypes releases).
  { intros r Hr. simpl in Hr.
    repeat (destruct Hr as [<-|Hr]; [reflexivity|]). contradiction. }
  split; [exact H|].
  exact (sections_partition IsoDate.getTime releases H).
Defined.

Lemma sections_distinct_nonempty_witness :
  let releases :=
    [release "1" "Single" "2024-01-01"; release "2" "Live" "2023-01-01";
     release "3" "Single" "2022-06-01"] in
  Presented.plainTypes releases /\
  exists g,
    Releases.groupReleasesByType IsoDate.getTime releases = Some g /\
    NoDup (Releases.sortedTypes g) /\
    forall k, In k (Releases.sortedTypes g) -> Releases.bucketOf g k <> [].
Proof.
  intros releases.
  assert (H : Presented.plainTypes releases).
  { intros r Hr. simpl in Hr.
    repeat (destruct Hr as [<-|Hr]; [reflexivity|]). contradiction. }
  split; [exact H|].
  exact (sections_distinct_nonempty IsoDate.getTime releases H).
Defined.

Lemma sorted_input_kept_witness :
  let r1 := release "1" "Single" "2024-01-01" in
  let r2 := release "2" "Album" "2023-01-01" in
  let r3 := release "3" "Single" "2023-01-01" in
  let r4 := release "4" "Single" "2022-06-01" in
  Presented.plainTypes [r1; r2; r3; r4] /\
  Presented.validDates IsoDate.getTime [r1; r2; r3; r4] /\
  StronglySorted (Presented.newestFirst IsoDate.getTime) [r1; r2; r3; r4] /\
  exists g,
    Releases.groupReleasesByType IsoDate.getTime [r1; r2; r3; r4] = Some g /\
    Releases.bucketOf g "Single" = [r1; r3; r4].
Proof.
  intros r1 r2 r3 r4.
  assert (Hp : Presented.plainTypes [r1; r2; r3; r4]).
  { intros r Hr. simpl in Hr.
    repeat (destruct Hr as [<-|Hr]; [reflexivity|]). contradiction. }
  assert (Hv : Presented.validDates IsoDate.getTime [r1; r2; r3; r4]).
  { intros r Hr. simpl in Hr.
    repeat (destruct Hr as [<-|Hr]; [discriminate|]). contradiction. }
  assert (Hs : StronglySorted (Presented.newestFirst IsoDate.getTime)
                 [r1; r2; r3; r4]).
  { repeat (constructor;
            [|repeat (constructor; [vm_compute; discriminate|]);
              constructor]).
    constructor. }
  split; [exact Hp|]. split; [exact Hv|]. split; [exact Hs|].
  destruct (sorted_input_kept IsoDate.getTime _ Hp Hv Hs) as [g [Hg Hb]].
  exists g. split; [exact Hg|]. rewrite Hb. reflexivity.
Defined.

(** A refresh whose invalidation has succeeded awaits its health check. *)
Lemma refresh_probe_decides_gate_witness :
  let s := App.run App.mount
             [ (0, App.Settles 0 true); (10, App.RefreshClick);
               (20, App.Settles 1 true) ]%Z in
  App.awaited 2 (App.pending s) = Some App.RefreshHealth /\
  App.apiConnected s = Some true /\
  App.content (App.handle 30 (App.Settles 2 false) s) = Gate.ConnectionHelp /\
  App.isRefreshing (App.handle 30 (App.Settles 2 false) s) = true /\
  App.isRefreshing
    (App.advance 1030 (App.handle 30 (App.Settles 2 false) s)) = false.
Proof.
  intros s. split; [reflexivity|]. split; [reflexivity|].
  destruct (refresh_probe_decides_gate 30 s 2 false eq_refl)
    as [Hfail [_ [_ Hcool]]].
  split; [exact (proj1 (Hfail eq_refl) (App.currentView s))|].
  split; [reflexivity|]. apply Hcool. lia.
Defined.


Import ArtistSearch.

Lemma every_search_is_guarded_witness :
  In (ArtistsSearch "abc" 8) (apiCalls (run (mount 0) overtaken)) /\
  (2 <= String.length "abc")%nat.
Proof.
  assert (H : In (ArtistsSearch "abc" 8) (apiCalls (run (mount 0) overtaken)))
    by (simpl; auto).
  split; [exact H|].
  exact (proj1 (every_search_is_guarded 0 overtaken "abc" 8 H)).
Defined.

Lemma follow_click_once_witness :
  let c := run (mount 0)
             [ (0, Change "ab");
               (400, SearchSettles 0 (SearchFulfilled (Some [abba; abc]))) ]%Z in
  nth_error (searchResults c) 0 = Some abba /\
  followDisabled abba c = false /\
  apiCalls (handle 500 (Follow 0) c)
  = [ArtistsSearch "ab" 8; ArtistsAdd "Abba" "m1"] /\
  handle 501 (Follow 0) (handle 500 (Follow 0) c) = handle 500 (Follow 0) c.
Proof.
  intros c. split; [reflexivity|]. split; [reflexivity|].
  destruct (proj2 (follow_click_once 500 0 abba c eq_refl) eq_refl)
    as [Hc [_ Hagain]].
  split; [rewrite Hc; reflexivity | exact (Hagain 501%Z)].
Defined.

Lemma follow_marker_is_last_click_only_witness :
  let c := run (mount 0)
             [ (0, Change "ab");
               (400, SearchSettles 0 (SearchFulfilled (Some [abba; abc]))) ]%Z in
  nth_error (searchResults c) 0 = Some abba /\
  nth_error (searchResults c) 1 = Some abc /\
  mbid abba <> mbid abc /\
  apiCalls (handle 500 (Follow 0)
              (handle 500 (Follow 1) (handle 500 (Follow 0) c)))
  = [ArtistsSearch "ab" 8; ArtistsAdd "Abba" "m1"; ArtistsAdd "ABC" "m2";
     ArtistsAdd "Abba" "m1"].
Proof.
  intros c.
  assert (Hne : mbid abba <> mbid abc) by discriminate.
  split; [reflexivity|]. split; [reflexivity|]. split; [exact Hne|].
  rewrite (proj1 (follow_marker_is_last_click_only 500 0 1 abba abc c
                    eq_refl eq_refl Hne eq_refl eq_refl)).
  reflexivity.
Defined.

Lemma loading_flag_cleared_by_first_response_witness :
  let c := run (mount 0)
             [ (0, Change "ab"); (350, Change "abc");
               (700, Change "abcd") ]%Z in
  awaited 0 (pending c) = Some (ArtistsSearch "ab" 8) /\
  awaited 1 (pending c) = Some (ArtistsSearch "abc" 8) /\
  isSearching c = true /\
  isSearching (handle 710 (SearchSettles 0 SearchRejected) c) = false /\
  awaited 1 (pending (handle 710 (SearchSettles 0 SearchRejected) c))
  = Some (ArtistsSearch "abc" 8).
Proof.
  intros c.
  assert (Hne : 0 <> 1) by discriminate.
  split; [reflexivity|]. split; [reflexivity|]. split; [reflexivity|].
  exact (loading_flag_cleared_by_first_response 710 c 0 1 "ab" 8 "abc" 8
           SearchRejected eq_refl eq_refl Hne).
Defined.

Lemma add_success_notifies_and_cancels_search_witness :
  awaited 1 (pending following) = Some (ArtistsAdd "Abba" "m1") /\
  timerCurrent following /\
  searchQuery following = "ab" /\
  let c' := handle 600 (AddSettles 1 AddFulfilled) following in
  artistAdded c' = 1 /\
  apiCalls (advance 900 c') = [ArtistsSearch "ab" 8; ArtistsAdd "Abba" "m1"].
Proof.
  assert (Ht : timerCurrent following).
  { intros due query E. discriminate E. }
  split; [reflexivity|]. split; [exact Ht|]. split; [reflexivity|].
  destruct (add_success_notifies_and_cancels_search 600 following 1
              "Abba" "m1" eq_refl Ht) as [Hn [_ [Hlater _]]].
  split; [exact Hn|]. rewrite (proj1 (Hlater 900%Z)). reflexivity.
Defined.

Lemma no_results_shown_before_search_witness :
  (2 <= String.length "ab")%nat /\
  "ab" <> searchQuery (mount 0) /\
  noResultsShown (handle 0 (Change "ab") (mount 0)) = true /\
  noResultsShown (advance 299 (handle 0 (Change "ab") (mount 0))) = true /\
  apiCalls (advance 299 (handle 0 (Change "ab") (mount 0))) = [].
Proof.
  assert (Hl : (2 <= String.length "ab")%nat) by (simpl; lia).
  assert (Hq : "ab" <> searchQuery (mount 0)) by discriminate.
  split; [exact Hl|]. split; [exact Hq|].
  destruct (no_results_shown_before_search 0 (mount 0) "ab" Hl Hq
              eq_refl eq_refl) as [H0 Hquiet].
  split; [exact H0|]. apply (Hquiet 299%Z). lia.
Defined.

End MoreExamples.

(** ** ArtistsView: opening and closing the search section *)

Section HostFacts.
Import ArtistSearch.

Lemma awaited_app request (l l' : list (nat * ApiCall)) (call : ApiCall) :
  awaited request l = Some call -> awaited request (l ++ l') = Some call.
Proof.
  induction l as [|[r x] l IH]; simpl; [discriminate|].
  destruct (Nat.eqb r request); auto.
Qed.

Lemma advance_awaited now c request call :
  awaited request (pending c) = Some call ->
  awaited request (pending (advance now c)) = Some call.
Proof.
  intros H. unfold advance. destruct (timer c) as [[due query]|]; [|exact H].
  destruct (due <=? now)%Z; [|exact H]. unfold handleSearch.
  destruct (String.length query <? 2)%nat; [exact H|].
  cbn [pending await setIsSearching clearTimer]. now apply awaited_app.
Qed.

Lemma advance_artistAdded now c : artistAdded (advance now c) = artistAdded c.
Proof.
  unfold advance. destruct (timer c) as [[due query]|]; [|reflexivity].
  destruct (due <=? now)%Z; [|reflexivity]. unfold handleSearch.
  now destruct (String.length query <? 2)%nat.
Qed.

(** X18.  In [ArtistsView], a follow that succeeds closes the search
    section and refetches the artist list once; a follow that fails leaves
    the section open with the query as typed, refetches nothing, and clears
    the in-flight marker. *)
Theorem follow_outcome_in_artists_view now (s : ArtistsView.State) c
    request n m :
  ArtistsView.section s = Some c ->
  awaited request (pending c) = Some (ArtistsAdd n m) ->
  ArtistsView.handle now
    (ArtistsView.InSection (AddSettles request AddFulfilled)) s
  = ArtistsView.mkState false None (S (ArtistsView.refetches s)) /\
  forall status,
    exists c',
      ArtistsView.handle now
        (ArtistsView.InSection (AddSettles request (AddRejected status))) s
      = ArtistsView.mkState (ArtistsView.showSearch s) (Some c')
          (ArtistsView.refetches s) /\
      searchQuery c' = searchQuery c /\
      addingArtistId c' = None.
Proof.
  intros Hs Ha.
  pose proof (advance_awaited now c request _ Ha) as Ha'.
  pose proof (advance_artistAdded now c) as Hn.
  split.
  - cbn [ArtistsView.handle]. rewrite Hs. unfold step. cbn [fst snd handle].
    rewrite Ha'. unfold handleAddArtist_resume.
    cbn [artistAdded setAddingArtistId onArtistAdded setSearchResults].
    replace (artistAdded (setSearchQuery now "" (settled request (advance now c))))
      with (artistAdded c).
    + destruct (Nat.ltb_spec (artistAdded c) (S (artistAdded c)));
        [reflexivity | lia].
    + unfold setSearchQuery.
      destruct (String.eqb "" (searchQuery (settled request (advance now c))));
        simpl; now rewrite Hn.
  - intros status.
    exists (handle now (AddSettles request (AddRejected status))
              (advance now c)).
    cbn [ArtistsView.handle]. rewrite Hs. unfold step. cbn [fst snd].
    cbn [handle]. rewrite Ha'. unfold handleAddArtist_resume.
    split; [|split].
    + replace (artistAdded
                 (setAddingArtistId None
                    (if isConflict status
                     then alert alreadyFollowed
                            (console_error "Failed to add artist:"
                               (settled request (advance now c)))
                     else alert addFailed
                            (console_error "Failed to add artist:"
                               (settled request (advance now c))))))
        with (artistAdded c)
        by (destruct (isConflict status); simpl; now rewrite Hn).
      now rewrite Nat.ltb_irrefl.
    + destruct (isConflict status); simpl; apply advance_searchQuery.
    + now destruct (isConflict status).
Qed.




Lemma follow_outcome_in_artists_view_witness :
  let s := ArtistsView.mkState true (Some following) 0 in
  ArtistsView.section s = Some following /\
  awaited 1 (pending following) = Some (ArtistsAdd "Abba" "m1") /\
  ArtistsView.handle 600
    (ArtistsView.InSection (AddSettles 1 AddFulfilled)) s
  = ArtistsView.mkState false None 1.
Proof.
  intros s. split; [reflexivity|]. split; [reflexivity|].
  exact (proj1 (follow_outcome_in_artists_view 600 s following 1
                  "Abba" "m1" eq_refl eq_refl)).
Defined.

End HostFacts.
